(** * MSCEqF: the sensor-log parser and the symmetry of the filter

    A shallow embedding of [include/utils/data_parser.hpp] (the class
    [utils::dataParser]) and of the interface declared in
    [include/msceqf/symmetry/symmetry.hpp].

    - [DataParser]: the parser's stored vectors are lists, its member
      functions are functions on the parser's state that return an outcome
      (a value or a thrown exception) together with the state they leave.
      [msceqf::fp] is IEEE binary64, modelled by Rocq's primitive floats, so
      that [==], [>], [-], [/] and [std::abs] are the machine operations.
    - [Symmetry]: the physical state, the group element and the action
      [phi], whose bodies the header does not hold, as the specification
      describes them, over the real numbers.
    - [Reading]: [parseLine] with its regular expressions, the reading
      loops of the three parsers on the content of a file, [parseAndCheck]
      and the constructor.
    - [Replay]: the calls of [consumeSensorReadingAt] on the timestamps of
      [getSensorsTimestamps]. *)

From Stdlib Require Import PrimFloat Uint63 Ascii String Reals.
From Stdlib Require SpecFloat FloatOps FloatAxioms QArith Qabs.
From stdpp Require Import base option list strings gmap.

Module DataParser.

(** ** Numbers and small vectors *)

(** Modelled from the spec: [msceqf::fp] is declared in utils/tools.hpp, which
    is missing. Section 8 of the specification: double precision. *)
Abbreviation fp := float.

(** [timestamp_ == timestamp] of two [fp]: IEEE equality, for which a NaN
    differs from everything and the two zeros are equal. *)
Definition fp_eq (a b : fp) : bool := PrimFloat.eqb a b.

(** [a > b] of two [fp]. *)
Definition fp_gt (a b : fp) : bool := PrimFloat.ltb b a.

(** [Eigen::Vector3]. *)
Record Vector3 := mkVector3 { x : fp; y : fp; z : fp }.

(** [Eigen::Quaternion], coefficients in the order the parser assigns them. *)
Record Quaternion := mkQuaternion { qx : fp; qy : fp; qz : fp; qw : fp }.

Definition Vector3_Zero : Vector3 := mkVector3 0%float 0%float 0%float.
Definition Quaternion_Identity : Quaternion :=
  mkQuaternion 0%float 0%float 0%float 1%float.

(** [cv::Mat] as far as the parser looks at it: the two sizes and the
    single-channel pixels, row after row. *)
Record Mat := mkMat { rows : nat; cols : nat; pixels : list Z }.

(** ** Sensor records *)

(** Modelled from the spec: [msceqf::Imu] is declared in
    sensors/sensor_data.hpp, which is missing. Section 3: angular velocity and
    specific-force 3-vectors plus timestamp, under the names the parser
    assigns them by. *)
Record Imu := mkImu {
  imu_timestamp_ : fp;
  ang_ : Vector3;
  acc_ : Vector3
}.

(** Modelled from the spec: [msceqf::Camera] is declared in
    sensors/sensor_data.hpp, which is missing, and the specification leaves
    images out of its scope: the fields are the three that
    [parseAndCheckImages] assigns. *)
Record Camera := mkCamera {
  cam_timestamp_ : fp;
  image_ : Mat;
  mask_ : Mat
}.

(** [struct Groundtruth]. *)
Record Groundtruth := mkGroundtruth {
  timestamp_ : fp;
  q_ : Quaternion;
  p_ : Vector3;
  v_ : Vector3;
  bw_ : Vector3;
  ba_ : Vector3
}.

(** The default member initialisers of [Groundtruth]. *)
Definition Groundtruth_default : Groundtruth :=
  mkGroundtruth (-1)%float Quaternion_Identity
                Vector3_Zero Vector3_Zero Vector3_Zero Vector3_Zero.

(** [operator<] of [Groundtruth]. *)
Definition Groundtruth_lt (lhs rhs : Groundtruth) : bool :=
  PrimFloat.ltb (timestamp_ lhs) (timestamp_ rhs).

(** ** Exceptions *)

(** The texts of the [std::runtime_error]s the parser throws; the two that
    end in [std::to_string(timestamp)] carry the timestamp. *)
Inductive error_message :=
| No_sensor_reading_found_at_timestamp (timestamp : fp)
| No_groundtruth_data_found_at_timestamp (timestamp : fp)
| Wrong_number_of_groundtruth_header_titles
| Required_groundtruth_missing
| Required_imu_missing
| Corrupted_file.

Inductive exception :=
| runtime_error (what : error_message)
| out_of_range
| invalid_argument.

Inductive outcome (A : Type) :=
| Return (a : A)
| Throw (e : exception).
Arguments Return {A} a.
Arguments Throw {A} e.

(** ** The parser's state *)

Record dataParser := mkDataParser {
  image_data_folder_ : string;
  imu_header_titles_ : list string;
  groundtruth_header_titles_ : list string;
  image_header_titles_ : list string;
  imu_data_ : list Imu;
  groundtruth_data_ : list Groundtruth;
  image_data_ : list Camera;
  timeoffset_ : fp
}.

Definition set_imu_data_ (v : list Imu) (self : dataParser) : dataParser :=
  mkDataParser (image_data_folder_ self) (imu_header_titles_ self)
    (groundtruth_header_titles_ self) (image_header_titles_ self)
    v (groundtruth_data_ self) (image_data_ self) (timeoffset_ self).

Definition set_groundtruth_data_ (v : list Groundtruth) (self : dataParser)
  : dataParser :=
  mkDataParser (image_data_folder_ self) (imu_header_titles_ self)
    (groundtruth_header_titles_ self) (image_header_titles_ self)
    (imu_data_ self) v (image_data_ self) (timeoffset_ self).

Definition set_image_data_ (v : list Camera) (self : dataParser) : dataParser :=
  mkDataParser (image_data_folder_ self) (imu_header_titles_ self)
    (groundtruth_header_titles_ self) (image_header_titles_ self)
    (imu_data_ self) (groundtruth_data_ self) v (timeoffset_ self).

(** ** Iterators

    [std::find_if(v.begin(), v.end(), pred)]: the position of the first
    element that satisfies [pred] together with that element, or [None] for
    [v.end()]. *)
Fixpoint find_if {A : Type} (pred : A -> bool) (v : list A) : option (nat * A) :=
  match v with
  | [] => None
  | a :: v' =>
      if pred a then Some (0, a)
      else match find_if pred v' with
           | Some (i, b) => Some (S i, b)
           | None => None
           end
  end.

(** [v.erase(it)] for the iterator at position [i]. *)
Definition erase {A : Type} (i : nat) (v : list A) : list A := delete i v.

(** ** [consumeSensorReadingAt] *)

Definition consumeSensorReadingAt (timestamp : fp) (self : dataParser)
  : outcome (Imu + Camera) * dataParser :=
  let imu_it :=
    find_if (fun imu => fp_eq (imu_timestamp_ imu) timestamp) (imu_data_ self) in
  let cam_it :=
    find_if (fun cam => fp_eq (cam_timestamp_ cam) timestamp) (image_data_ self) in
  match imu_it with
  | Some (i, imu) =>
      (Return (inl imu), set_imu_data_ (erase i (imu_data_ self)) self)
  | None =>
      match cam_it with
      | Some (i, cam) =>
          (Return (inr cam), set_image_data_ (erase i (image_data_ self)) self)
      | None =>
          (Throw (runtime_error (No_sensor_reading_found_at_timestamp timestamp)),
           self)
      end
  end.

(** ** [getCloserGroundtruthAt] *)

(** [std::abs(gt.timestamp_ - timestamp)]. *)
Definition time_distance (timestamp : fp) (gt : Groundtruth) : fp :=
  PrimFloat.abs (PrimFloat.sub (timestamp_ gt) timestamp).

Definition getCloserGroundtruthAt (timestamp : fp) (self : dataParser)
  : outcome Groundtruth :=
  match find_if (fun gt => fp_gt (timestamp_ gt) timestamp)
                (groundtruth_data_ self) with
  | None =>
      Throw (runtime_error (No_groundtruth_data_found_at_timestamp timestamp))
  | Some (i, gt) =>
      match i with
      | S j =>
          match groundtruth_data_ self !! j with
          | Some prev =>
              if fp_gt (time_distance timestamp gt) (time_distance timestamp prev)
              then Return prev
              else Return gt
          | None => Return gt
          end
      | O => Return gt
      end
  end.

(** The number a binary64 value stands for: none for the infinities and the
    NaNs, and for the others the mantissa times the power of two that
    [Prim2SF] gives. *)
Definition exact_value (a : fp) : option QArith_base.Q :=
  match FloatOps.Prim2SF a with
  | SpecFloat.S754_zero _ => Some (QArith_base.inject_Z 0)
  | SpecFloat.S754_finite s m e =>
      Some (QArith_base.Qmult
              (QArith_base.inject_Z (if s then Z.neg m else Z.pos m))
              (QArith_base.Qpower (QArith_base.inject_Z 2) e))
  | _ => None
  end.

(** The distance of two such numbers, without rounding. *)
Definition exact_distance (a b : fp) : option QArith_base.Q :=
  match exact_value a, exact_value b with
  | Some x, Some y => Some (Qabs.Qabs (QArith_base.Qminus x y))
  | _, _ => None
  end.

(** ** [getSensorsTimestamps], [getIndex] and [getIndices] *)

(** What the parser calls and does not define: [std::sort] (given the
    [operator<] of the elements), [Eigen]'s [Quaternion::normalize],
    [cv::imread], [std::stod] (which throws when the text is no number) and
    [trimString] of utils/tools.hpp. They are parameters of the model. *)
Class External := {
  std_sort : forall A : Type, (A -> A -> bool) -> list A -> list A;
  normalize : Quaternion -> Quaternion;
  cv_imread : string -> Mat;
  std_stod : string -> outcome fp;
  trimString : string -> string
}.

(** Modelled from the spec: [operator<] of [Imu] and of [Camera]
    (sensors/sensor_data.hpp is missing); the readings are kept ordered by
    timestamp (Section 6), as [operator<] of [Groundtruth] orders them. *)
Definition Imu_lt (lhs rhs : Imu) : bool :=
  PrimFloat.ltb (imu_timestamp_ lhs) (imu_timestamp_ rhs).
Definition Camera_lt (lhs rhs : Camera) : bool :=
  PrimFloat.ltb (cam_timestamp_ lhs) (cam_timestamp_ rhs).

Definition getSensorsTimestamps `{External} (self : dataParser) : list fp :=
  let timestamps :=
    (imu_timestamp_ <$> imu_data_ self) ++ (cam_timestamp_ <$> image_data_ self) in
  std_sort fp PrimFloat.ltb timestamps.

(** [getIndex(data, token, index)]: [Some index] for [true], [None] for
    [false]. *)
Definition getIndex (data : list string) (token : string) : option nat :=
  match find_if (fun s => bool_decide (s = token)) data with
  | Some (index, _) => Some index
  | None => None
  end.

(** The loop of [getIndices] over the titles; [indices] grows at its back. The
    boolean is the value returned. *)
Fixpoint getIndices_loop (header titles : list string) (indices : list nat)
  : bool * list nat :=
  match titles with
  | [] => (true, indices)
  | it :: titles' =>
      match getIndex header it with
      | None => (false, indices)
      | Some idx => getIndices_loop header titles' (indices ++ [idx])
      end
  end.

(** [getIndices(header, titles, indices)]: the value returned and the three
    vectors as the call leaves them (the first two trimmed in place). *)
Definition getIndices `{External} (header titles : list string) (indices : list nat)
  : bool * (list string * list string * list nat) :=
  let header' := trimString <$> header in
  let titles' := trimString <$> titles in
  let '(found, indices') := getIndices_loop header' titles' indices in
  (found, (header', titles', indices')).

(** ** Outcomes and the parser's state: two small monads *)

Definition outcome_bind {A B : Type} (o : outcome A) (k : A -> outcome B)
  : outcome B :=
  match o with
  | Return a => k a
  | Throw e => Throw e
  end.

Declare Scope outcome_scope.
Delimit Scope outcome_scope with outcome.
Notation "x <- o ;; k" := (outcome_bind o (fun x => k))
  (at level 100, o at next level, right associativity) : outcome_scope.

(** [v.at(n)]. *)
Definition at_ {A : Type} (v : list A) (n : nat) : outcome A :=
  match v !! n with
  | Some a => Return a
  | None => Throw out_of_range
  end.

(** [it.at(indices.at(k))]. *)
Definition column {A : Type} (indices : list nat) (it : list A) (k : nat)
  : outcome A :=
  (n <- at_ indices k ;; at_ it n)%outcome.

(** A member function that may throw: the outcome and the state it leaves. *)
Definition method (A : Type) : Type := dataParser -> outcome A * dataParser.

Definition method_bind {A B : Type} (m : method A) (k : A -> method B)
  : method B :=
  fun self =>
    match m self with
    | (Return a, self') => k a self'
    | (Throw e, self') => (Throw e, self')
    end.

Definition method_ret {A : Type} (a : A) : method A := fun self => (Return a, self).
Definition method_throw {A : Type} (e : exception) : method A :=
  fun self => (Throw e, self).
Definition method_of {A : Type} (o : outcome A) : method A := fun self => (o, self).
Definition modify (f : dataParser -> dataParser) : method unit :=
  fun self => (Return tt, f self).

Declare Scope method_scope.
Delimit Scope method_scope with method.
Notation "x <- m ;; k" := (method_bind m (fun x => k))
  (at level 100, m at next level, right associativity) : method_scope.
Notation "m ;;; k" := (method_bind m (fun _ => k))
  (at level 100, right associativity) : method_scope.

(** [for (const auto& it : data) body(it)]. *)
Fixpoint for_each {A : Type} (body : A -> method unit) (data : list A)
  : method unit :=
  match data with
  | [] => method_ret tt
  | it :: data' => (body it ;;; for_each body data')%method
  end.

(** ** The three parsers

    Each takes what the reading loop hands to the second half of the
    function: whether the stream was [good()], the header line and the data
    lines, split and converted by [parseLine]. *)

(** [t > 10e12 ? t / 1e9 : t]. *)
Definition rescale (t : fp) : fp :=
  if fp_gt t 10e12%float then PrimFloat.div t 1e9%float else t.

Definition set_groundtruth_header_titles_ (v : list string) (self : dataParser)
  : dataParser :=
  mkDataParser (image_data_folder_ self) (imu_header_titles_ self)
    v (image_header_titles_ self)
    (imu_data_ self) (groundtruth_data_ self) (image_data_ self) (timeoffset_ self).

Definition set_imu_header_titles_ (v : list string) (self : dataParser)
  : dataParser :=
  mkDataParser (image_data_folder_ self) v
    (groundtruth_header_titles_ self) (image_header_titles_ self)
    (imu_data_ self) (groundtruth_data_ self) (image_data_ self) (timeoffset_ self).

Definition set_image_header_titles_ (v : list string) (self : dataParser)
  : dataParser :=
  mkDataParser (image_data_folder_ self) (imu_header_titles_ self)
    (groundtruth_header_titles_ self) v
    (imu_data_ self) (groundtruth_data_ self) (image_data_ self) (timeoffset_ self).

(** The body of the loop of [parseAndCheckImu], up to [emplace_back]. *)
Definition read_imu (imu_indices : list nat) (it : list fp) : outcome Imu :=
  (t <- column imu_indices it 0 ;;
   let timestamp := rescale t in
   ang_x <- column imu_indices it 1 ;;
   ang_y <- column imu_indices it 2 ;;
   ang_z <- column imu_indices it 3 ;;
   acc_x <- column imu_indices it 4 ;;
   acc_y <- column imu_indices it 5 ;;
   acc_z <- column imu_indices it 6 ;;
   Return (mkImu timestamp (mkVector3 ang_x ang_y ang_z)
                 (mkVector3 acc_x acc_y acc_z)))%outcome.

Definition parseAndCheckImu `{External}
    (good : bool) (header : list string) (data : list (list fp)) : method unit :=
  ((if good then
     fun self =>
       let '(found, (_, titles, imu_indices)) :=
         getIndices header (imu_header_titles_ self) [] in
       let self := set_imu_header_titles_ titles self in
       if negb found then (Throw (runtime_error Required_imu_missing), self)
       else
         (modify (set_imu_data_ []) ;;;
          for_each (fun it =>
                      imu <- method_of (read_imu imu_indices it) ;;
                      modify (fun self => set_imu_data_ (imu_data_ self ++ [imu]) self))
                   data) self
   else method_throw (runtime_error Corrupted_file)) ;;;
  modify (fun self => set_imu_data_ (std_sort Imu Imu_lt (imu_data_ self)) self))%method.

(** The flags [have_velocity] and [have_bias] that [parseAndCheckGt] derives
    from the number of header titles. *)
Definition groundtruth_flags (titles : nat) : outcome (bool * bool) :=
  if Nat.eqb titles 17 then Return (true, true)
  else if Nat.eqb titles 14 then Return (false, true)
  else if Nat.eqb titles 11 then Return (true, false)
  else if Nat.eqb titles 8 then Return (false, false)
  else Throw (runtime_error Wrong_number_of_groundtruth_header_titles).

(** The body of the loop of [parseAndCheckGt], up to [emplace_back]. *)
Definition read_groundtruth `{External} (have_velocity have_bias : bool)
    (groundtruth_indices : list nat) (it : list fp) : outcome Groundtruth :=
  (t <- column groundtruth_indices it 0 ;;
   let timestamp := rescale t in
   q_x <- column groundtruth_indices it 1 ;;
   q_y <- column groundtruth_indices it 2 ;;
   q_z <- column groundtruth_indices it 3 ;;
   q_w <- column groundtruth_indices it 4 ;;
   let q := normalize (mkQuaternion q_x q_y q_z q_w) in
   p_x <- column groundtruth_indices it 5 ;;
   p_y <- column groundtruth_indices it 6 ;;
   p_z <- column groundtruth_indices it 7 ;;
   v <- (if have_velocity then
           v_x <- column groundtruth_indices it 8 ;;
           v_y <- column groundtruth_indices it 9 ;;
           v_z <- column groundtruth_indices it 10 ;;
           Return (mkVector3 v_x v_y v_z)
         else Return (v_ Groundtruth_default)) ;;
   b <- (if have_bias then
           bw_x <- column groundtruth_indices it 11 ;;
           bw_y <- column groundtruth_indices it 12 ;;
           bw_z <- column groundtruth_indices it 13 ;;
           ba_x <- column groundtruth_indices it 14 ;;
           ba_y <- column groundtruth_indices it 15 ;;
           ba_z <- column groundtruth_indices it 16 ;;
           Return (mkVector3 bw_x bw_y bw_z, mkVector3 ba_x ba_y ba_z)
         else Return (bw_ Groundtruth_default, ba_ Groundtruth_default)) ;;
   Return (mkGroundtruth timestamp q (mkVector3 p_x p_y p_z) v (fst b) (snd b)))%outcome.

Definition parseAndCheckGt `{External}
    (good : bool) (header : list string) (data : list (list fp)) : method unit :=
  (flags <- (fun self =>
               (groundtruth_flags (length (groundtruth_header_titles_ self)), self)) ;;
   let '(have_velocity, have_bias) := flags in
   (if good then
      fun self =>
        let '(found, (_, titles, groundtruth_indices)) :=
          getIndices header (groundtruth_header_titles_ self) [] in
        let self := set_groundtruth_header_titles_ titles self in
        if negb found then (Throw (runtime_error Required_groundtruth_missing), self)
        else
          (modify (set_groundtruth_data_ []) ;;;
           for_each (fun it =>
                       gt <- method_of (read_groundtruth have_velocity have_bias
                                                         groundtruth_indices it) ;;
                       modify (fun self =>
                                 set_groundtruth_data_ (groundtruth_data_ self ++ [gt]) self))
                    data) self
    else method_throw (runtime_error Corrupted_file)) ;;;
   modify (fun self =>
             set_groundtruth_data_
               (std_sort Groundtruth Groundtruth_lt (groundtruth_data_ self)) self))%method.

(** [255 * cv::Mat::ones(rows, cols, CV_8UC1)]. *)
Definition full_mask (r c : nat) : Mat := mkMat r c (replicate (r * c) 255%Z).

(** The body of the loop of [parseAndCheckImages], up to [emplace_back]. *)
Definition read_camera `{External} (self : dataParser)
    (image_indices : list nat) (it : list string) : outcome Camera :=
  (s <- column image_indices it 0 ;;
   t <- std_stod s ;;
   let timestamp := PrimFloat.add (rescale t) (timeoffset_ self) in
   name <- column image_indices it 1 ;;
   let image := cv_imread (image_data_folder_ self +:+ name) in
   let mask := full_mask (rows image) (cols image) in
   Return (mkCamera timestamp image mask))%outcome.

Definition parseAndCheckImages `{External}
    (good : bool) (header : list string) (data : list (list string)) : method unit :=
  ((if good then
      fun self =>
        let '(found, (_, titles, image_indices)) :=
          getIndices header (image_header_titles_ self) [] in
        let self := set_image_header_titles_ titles self in
        (* the text thrown here is the one of the groundtruth parser *)
        if negb found then (Throw (runtime_error Required_groundtruth_missing), self)
        else
          (modify (set_image_data_ []) ;;;
           for_each (fun it self =>
                       (cam <- method_of (read_camera self image_indices it) ;;
                        modify (fun self =>
                                  set_image_data_ (image_data_ self ++ [cam]) self))
                       self)
                    data) self
    else method_throw (runtime_error Corrupted_file)) ;;;
   modify (fun self =>
             set_image_data_ (std_sort Camera Camera_lt (image_data_ self)) self))%method.

(** ** One implementation of the external functions

    Used to run the parsers on concrete rows: [std::sort] as insertion sort,
    [normalize] leaving the quaternion as it is, [cv::imread] returning an
    empty image, [std::stod] reading an unsigned decimal integer, and
    [trimString] leaving the text as it is. *)

Fixpoint insert_sorted {A : Type} (lt : A -> A -> bool) (a : A) (v : list A)
  : list A :=
  match v with
  | [] => [a]
  | b :: v' => if lt b a then b :: insert_sorted lt a v' else a :: v
  end.

Definition insertion_sort (A : Type) (lt : A -> A -> bool) (v : list A) : list A :=
  foldr (insert_sorted lt) [] v.

Definition digit_of (c : ascii) : option Z :=
  let n := Z.of_nat (nat_of_ascii c) in
  if bool_decide (48 <= n <= 57)%Z then Some (n - 48)%Z else None.

Fixpoint digits_value (acc : Z) (s : string) : option Z :=
  match s with
  | EmptyString => Some acc
  | String c s' =>
      match digit_of c with
      | Some d => digits_value (10 * acc + d)%Z s'
      | None => None
      end
  end.

Definition stod_unsigned (s : string) : outcome fp :=
  match s with
  | EmptyString => Throw invalid_argument
  | _ =>
      match digits_value 0 s with
      | Some n => Return (PrimFloat.of_uint63 (Uint63.of_Z n))
      | None => Throw invalid_argument
      end
  end.

Definition simple_External : External := {|
  std_sort := insertion_sort;
  normalize := fun q => q;
  cv_imread := fun _ => mkMat 0 0 [];
  std_stod := stod_unsigned;
  trimString := fun s => s
|}.

(** ** A small parser state to run the functions on *)

Definition example_imu (t w : fp) : Imu :=
  mkImu t (mkVector3 w 0%float 0%float) (mkVector3 0%float 0%float 9.75%float).
Definition example_camera (t : fp) : Camera :=
  mkCamera t (mkMat 0 0 []) (mkMat 0 0 []).
Definition example_groundtruth (t : fp) : Groundtruth :=
  mkGroundtruth t Quaternion_Identity Vector3_Zero Vector3_Zero Vector3_Zero
                Vector3_Zero.

Definition example_parser : dataParser :=
  mkDataParser "cam0/"
    ["t"; "w_x"; "w_y"; "w_z"; "a_x"; "a_y"; "a_z"]
    ["t"; "q_x"; "q_y"; "q_z"; "q_w"; "p_x"; "p_y"; "p_z";
     "bw_x"; "bw_y"; "bw_z"; "ba_x"; "ba_y"; "ba_z"]
    ["t"; "name"]
    [example_imu 1 0.25; example_imu 2 0.5; example_imu 2 0.75]%float
    [example_groundtruth 1; example_groundtruth 2; example_groundtruth 5]%float
    [example_camera 2; example_camera 3]%float
    0.5%float.

(** Two groundtruth records whose distances to [2^30] differ by [2^-24],
    less than the subtraction of binary64 keeps. *)
Definition example_rounding_parser : dataParser :=
  set_groundtruth_data_
    [example_groundtruth 0x1p-24; example_groundtruth 2147483648]%float
    example_parser.

Definition example_imu_header : list string :=
  ["a_x"; "a_y"; "a_z"; "t"; "w_x"; "w_y"; "w_z"].
Definition example_imu_rows : list (list fp) :=
  [[1; 2; 3; 1403636579763555584; 4; 5; 6]; [0; 0; 0; 7.5; 1; 1; 1]]%float.

Definition example_groundtruth_header : list string :=
  groundtruth_header_titles_ example_parser.
Definition example_groundtruth_row : list fp :=
  [1403636579763555584; 0; 0; 0; 1; 0; 0; 0; 0; 0; 0; 0; 0; 0]%float.

Definition example_groundtruth8_parser : dataParser :=
  set_groundtruth_header_titles_
    ["t"; "q_x"; "q_y"; "q_z"; "q_w"; "p_x"; "p_y"; "p_z"] example_parser.
Definition example_groundtruth8_header : list string :=
  ["p_x"; "p_y"; "p_z"; "t"; "q_w"; "q_x"; "q_y"; "q_z"; "v_x"].
Definition example_groundtruth8_rows : list (list fp) :=
  [[1; 2; 3; 7.5; 1; 0; 0; 0; 9]; [4; 5; 6; 2.5; 1; 0; 0; 0; 9]]%float.
Definition example_groundtruth8_ns_rows : list (list fp) :=
  [[1; 2; 3; 1403636579763555584; 1; 0; 0; 0; 9]; [4; 5; 6; 2.5; 1; 0; 0; 0; 9]]%float.

Definition example_image_header : list string := ["name"; "t"].
Definition example_image_rows : list (list string) :=
  [["a.png"; "3"]; ["b.png"; "5"]].
Definition example_image_ns_rows : list (list string) :=
  [["a.png"; "1403636579763555584"]; ["b.png"; "5"]].

End DataParser.

(** * The symmetry: physical state, group element and action

    [include/msceqf/symmetry/symmetry.hpp] declares [Symmetry::phi]; its body
    and the classes [SystemState] and [MSCEqFState] (msceqf/state/state.hpp)
    are in files of the repository that are not at hand. The definitions of
    this module follow the specification, sections 3 and 4.2, with the
    arithmetic of [fp] idealised as the arithmetic of the real numbers. *)

Module Symmetry.

Local Open Scope R_scope.

(** ** Vectors and rotations *)

(** A 3-vector. *)
Record Vector3 := mkVector3 { x : R; y : R; z : R }.

(** A rotation, as a quaternion [w + xi + yj + zk]; it is normalized when its
    norm is one. *)
Record Quaternion := mkQuaternion { qw : R; qx : R; qy : R; qz : R }.

Definition Vector3_Zero : Vector3 := mkVector3 0 0 0.
Definition Quaternion_Identity : Quaternion := mkQuaternion 1 0 0 0.

Definition vadd (a b : Vector3) : Vector3 :=
  mkVector3 (x a + x b) (y a + y b) (z a + z b).

(** The product of two quaternions: the composition of the rotations. *)
Definition qmul (a b : Quaternion) : Quaternion :=
  mkQuaternion
    (qw a * qw b - qx a * qx b - qy a * qy b - qz a * qz b)
    (qw a * qx b + qx a * qw b + qy a * qz b - qz a * qy b)
    (qw a * qy b - qx a * qz b + qy a * qw b + qz a * qx b)
    (qw a * qz b + qx a * qy b - qy a * qx b + qz a * qw b).

Definition conjugate (a : Quaternion) : Quaternion :=
  mkQuaternion (qw a) (- qx a) (- qy a) (- qz a).

Definition squaredNorm (a : Quaternion) : R :=
  qw a * qw a + qx a * qx a + qy a * qy a + qz a * qz a.

Definition norm (a : Quaternion) : R := sqrt (squaredNorm a).

(** The rotation [q] applied to the vector [v]: the vector part of
    [q v q*]. *)
Definition rotate (q : Quaternion) (v : Vector3) : Vector3 :=
  let r := qmul (qmul q (mkQuaternion 0 (x v) (y v) (z v))) (conjugate q) in
  mkVector3 (qx r) (qy r) (qz r).

(** ** The physical state and the group element *)

(** The extended pose: rotation, velocity and position in one element. *)
Record ExtendedPose := mkExtendedPose {
  rotation : Quaternion;
  velocity : Vector3;
  position : Vector3
}.

(** Modelled from the spec: the class [SystemState] (msceqf/state/state.hpp)
    is missing. Section 3: orientation, position and velocity of the IMU
    frame, gyroscope and accelerometer bias, camera-IMU extrinsic calibration
    (rotation and translation), camera-IMU time offset, and a mapping from
    feature identifier to 3D anchor position. *)
Record SystemState := mkSystemState {
  T : ExtendedPose;
  bw : Vector3;
  ba : Vector3;
  S_rotation : Quaternion;
  S_translation : Vector3;
  time_offset : R;
  features : gmap nat Vector3
}.

(** Modelled from the spec: the class [MSCEqFState] (msceqf/state/state.hpp)
    is missing. Section 2: an extended pose block, a calibration/bias
    rotation block, and the vector-space blocks (feature anchors, extrinsic
    calibration, time offset). *)
Record MSCEqFState := mkMSCEqFState {
  pose_block : ExtendedPose;
  bias_rotation_block : Quaternion;
  anchor_block : gmap nat Vector3;
  extrinsic_block : Vector3;
  time_offset_block : R
}.

(** ** The action *)

(** Rigid-motion composition of a pose with an extended pose. *)
Definition compose_pose (A B : ExtendedPose) : ExtendedPose :=
  mkExtendedPose (qmul (rotation A) (rotation B))
                 (vadd (rotate (rotation A) (velocity B)) (velocity A))
                 (vadd (rotate (rotation A) (position B)) (position A)).

(** A point under the pose transform. *)
Definition transform_point (A : ExtendedPose) (f : Vector3) : Vector3 :=
  vadd (rotate (rotation A) f) (position A).

(** A quaternion scaled to norm one. *)
Definition normalized (q : Quaternion) : Quaternion :=
  mkQuaternion (qw q / norm q) (qx q / norm q) (qy q / norm q) (qz q / norm q).

(** A 5x5 matrix, by its entries. *)
Definition Matrix5 : Type := nat -> nat -> R.

(** The biases and the extrinsic calibration of a physical state: what the
    calibration/bias sub-block of the group element acts on. *)
Record Calibration := mkCalibration {
  gyroscope_bias : Vector3;
  accelerometer_bias : Vector3;
  extrinsic_rotation : Quaternion;
  extrinsic_translation : Vector3
}.

(** Modelled from the spec: what Section 4.2 names and neither text gives.
    [D] is the constant [Symmetry::D] (symmetry.hpp:52 declares it; its
    entries are in a file that is missing), and [correct D X] is the way the
    calibration/bias sub-block of [X] acts, through [D], on the biases and on
    the extrinsic calibration. Both are parameters of the model. *)
Class Unspecified := {
  D : Matrix5;
  correct : Matrix5 -> MSCEqFState -> Calibration -> Calibration
}.

(** Modelled from the spec: the body of [Symmetry::phi] (symmetry.cpp) is
    missing. Section 4.2: the pose sub-block of [X] transforms the pose and
    velocity of [xi] by rigid-motion composition; the calibration/bias
    sub-block of [X] corrects, through [D], the two biases and the extrinsic
    calibration; the vector-space sub-blocks are added to the time offset
    and, under the pose transform, to the feature anchors, a feature for
    which [X] holds no anchor getting nothing added; the rotation blocks of
    the result are normalized. The group acts from the left, as that section
    asks (the comment on the declaration, symmetry.hpp:26, calls the action
    a right one). *)
Definition phi `{Unspecified} (X : MSCEqFState) (xi : SystemState) : SystemState :=
  let pose := compose_pose (pose_block X) (T xi) in
  let calibration :=
    correct D X (mkCalibration (bw xi) (ba xi) (S_rotation xi) (S_translation xi)) in
  mkSystemState
    (mkExtendedPose (normalized (rotation pose)) (velocity pose) (position pose))
    (gyroscope_bias calibration)
    (accelerometer_bias calibration)
    (normalized (extrinsic_rotation calibration))
    (extrinsic_translation calibration)
    (time_offset xi + time_offset_block X)
    (map_imap (fun id f =>
                 Some (vadd (transform_point (pose_block X) f)
                            (default Vector3_Zero (anchor_block X !! id))))
              (features xi)).

(** ** A group element and a state to run the action on *)

(** Half turns about the first and the second axis, and a state turned by a
    half turn about the third, with two features. *)
Definition example_group_element : MSCEqFState :=
  mkMSCEqFState
    (mkExtendedPose (mkQuaternion 0 1 0 0) (mkVector3 1 0 0) (mkVector3 0 2 0))
    (mkQuaternion 0 0 1 0)
    {[ 7%nat := mkVector3 1 1 1 ]}
    (mkVector3 0 0 1)
    (1 / 2).

Definition example_state : SystemState :=
  mkSystemState
    (mkExtendedPose (mkQuaternion 0 0 0 1) (mkVector3 0 1 0) (mkVector3 3 0 0))
    (mkVector3 1 0 0) (mkVector3 0 1 0)
    Quaternion_Identity (mkVector3 0 0 1)
    0
    {[ 7%nat := mkVector3 1 2 3; 9%nat := mkVector3 0 0 4 ]}.

End Symmetry.

(** * Reading the files: [parseLine], the first halves of the parsers,
      [parseAndCheck] and the constructor

    The members of [utils::dataParser] that the functions above do not read
    (the file names, the three flags and the delimiter) are the fields of
    [dataParserFiles], next to the state above. *)

Module Reading.
Import DataParser.

(** ** Characters and strings *)

(** The letters [A] to [Z]. *)
Definition is_upper (c : ascii) : bool :=
  (65 <=? nat_of_ascii c) && (nat_of_ascii c <=? 90).

(** [::tolower] in the "C" locale, the locale of a program that sets none:
    the letters [A] to [Z] go to [a] to [z], every other character stays. *)
Definition tolower (c : ascii) : ascii :=
  if is_upper c then ascii_of_nat (nat_of_ascii c + 32) else c.

(** The letters [a] to [z], and the letters of either case. *)
Definition is_lower (c : ascii) : bool :=
  (97 <=? nat_of_ascii c) && (nat_of_ascii c <=? 122).

Definition is_letter (c : ascii) : bool := is_upper c || is_lower c.

(** [std::transform(s.begin(), s.end(), s.begin(), ::tolower)]. *)
Fixpoint lowercase (s : string) : string :=
  match s with
  | EmptyString => EmptyString
  | String c s' => String (tolower c) (lowercase s')
  end.

(** [s.back()], [None] on the empty string, where the call is undefined. *)
Fixpoint back (s : string) : option ascii :=
  match s with
  | EmptyString => None
  | String c EmptyString => Some c
  | String _ s' => back s'
  end.

(** [s.pop_back()]. *)
Fixpoint pop_back (s : string) : string :=
  match s with
  | EmptyString => EmptyString
  | String c EmptyString => EmptyString
  | String c s' => String c (pop_back s')
  end.

(** [s.find(needle) != std::string::npos]. *)
Fixpoint contains (needle s : string) : bool :=
  String.prefix needle s
  || match s with
     | EmptyString => false
     | String _ s' => contains needle s'
     end.

Definition carriage_return : ascii := ascii_of_nat 13.
Definition line_feed : ascii := ascii_of_nat 10.

(** [while (std::getline(stream, s, delim)) ...]: the strings [s] of the
    successive rounds. [token] holds the characters extracted in the round
    under way. At the end of the input a round that extracted nothing fails,
    and ends the loop. *)
Fixpoint read_fields (delim : ascii) (token input : string) : list string :=
  match input with
  | EmptyString =>
      match token with
      | EmptyString => []
      | _ => [token]
      end
  | String c input' =>
      if Ascii.eqb c delim then token :: read_fields delim EmptyString input'
      else read_fields delim (token +:+ String c EmptyString) input'
  end.

(** ** Regular expressions

    [std::regex_match] asks whether the whole string belongs to the language
    of the expression; for expressions without back-references that is
    decided by derivatives. *)

Inductive regex :=
| Void
| Eps
| Chr (class : ascii -> bool)
| Alt (r1 r2 : regex)
| Seq (r1 r2 : regex)
| Star (r : regex).

Definition Plus (r : regex) : regex := Seq r (Star r).
Definition Opt (r : regex) : regex := Alt r Eps.

Fixpoint nullable (r : regex) : bool :=
  match r with
  | Void => false
  | Eps => true
  | Chr _ => false
  | Alt r1 r2 => nullable r1 || nullable r2
  | Seq r1 r2 => nullable r1 && nullable r2
  | Star _ => true
  end.

Fixpoint derive (c : ascii) (r : regex) : regex :=
  match r with
  | Void => Void
  | Eps => Void
  | Chr class => if class c then Eps else Void
  | Alt r1 r2 => Alt (derive c r1) (derive c r2)
  | Seq r1 r2 =>
      if nullable r1 then Alt (Seq (derive c r1) r2) (derive c r2)
      else Seq (derive c r1) r2
  | Star r' => Seq (derive c r') (Star r')
  end.

Fixpoint regex_match (s : string) (r : regex) : bool :=
  match s with
  | EmptyString => nullable r
  | String c s' => regex_match s' (derive c r)
  end.

(** [\d]. *)
Definition digit (c : ascii) : bool :=
  (48 <=? nat_of_ascii c) && (nat_of_ascii c <=? 57).

Definition one_of (chars : string) (c : ascii) : bool :=
  existsb (Ascii.eqb c) (list_ascii_of_string chars).

(** [.] of the ECMAScript grammar: every character but the line
    terminators. *)
Definition any_char (c : ascii) : bool :=
  negb (Ascii.eqb c line_feed) && negb (Ascii.eqb c carriage_return).

Fixpoint literal (s : string) : regex :=
  match s with
  | EmptyString => Eps
  | String c s' => Seq (Chr (Ascii.eqb c)) (literal s')
  end.

(** The expression of [parseAndCheckGt] and [parseAndCheckImu]: an optional
    sign, then digits-dot-digits with a digit after the dot, or with a digit
    before it, or digits alone, then an optional exponent ([e] or [E], an
    optional sign, digits); or else the word [nan]. Under [regex_match] its
    anchors ask nothing more. *)
Definition number_regex : regex :=
  Alt
    (Seq (Opt (Chr (one_of "+-")))
       (Seq (Alt (Alt (Seq (Star (Chr digit)) (Seq (Chr (one_of ".")) (Plus (Chr digit))))
                      (Seq (Plus (Chr digit)) (Seq (Chr (one_of ".")) (Star (Chr digit)))))
                 (Plus (Chr digit)))
            (Opt (Seq (Chr (one_of "eE"))
                      (Seq (Opt (Chr (one_of "+-"))) (Plus (Chr digit)))))))
    (literal "nan").

(** The default expression of [parseLine]: any characters, to the end. *)
Definition any_regex : regex := Star (Chr any_char).

(** The language of an expression: what [regex_match] is to decide. *)
Inductive lang : regex -> string -> Prop :=
| lang_Eps : lang Eps EmptyString
| lang_Chr class c : class c = true -> lang (Chr class) (String c EmptyString)
| lang_Alt_l r1 r2 s : lang r1 s -> lang (Alt r1 r2) s
| lang_Alt_r r1 r2 s : lang r2 s -> lang (Alt r1 r2) s
| lang_Seq r1 r2 s1 s2 : lang r1 s1 -> lang r2 s2 -> lang (Seq r1 r2) (s1 +:+ s2)
| lang_Star_nil r : lang (Star r) EmptyString
| lang_Star_cons r s1 s2 :
    lang r s1 -> lang (Star r) s2 -> lang (Star r) (s1 +:+ s2).


(** Every class of the expression lies within [P]. *)
Fixpoint classes_within (P : ascii -> bool) (r : regex) : Prop :=
  match r with
  | Chr class => forall c, class c = true -> P c = true
  | Alt r1 r2 | Seq r1 r2 => classes_within P r1 /\ classes_within P r2
  | Star r' => classes_within P r'
  | Void | Eps => True
  end.


(** The field as [parseLine] looks at it after [s.back()] and
    [s.pop_back()]: without the carriage return it may end in. *)
Definition strip_cr (s : string) : string :=
  match back s with
  | Some c => if Ascii.eqb c carriage_return then pop_back s else s
  | None => s
  end.

(** The fields of a line joined by the delimiter. *)
Definition join (delim : ascii) (fields : list string) : string :=
  String.concat (String delim EmptyString) fields.

(** ** [parseLine] *)

(** How a call that reads the files may end badly: with an exception of the
    second half of a parser or of [std::stod], or with one of the runtime
    errors of the first half and of [parseAndCheck]. *)
Inductive failure :=
| thrown (e : exception)
| Regex_match_fail
| Error_opening_GT_file
| Error_opening_IMU_file
| Error_opening_IMAGE_file.

Inductive result (A : Type) :=
| Done (a : A)
| Failed (f : failure).
Arguments Done {A} a.
Arguments Failed {A} f.

Definition result_bind {A B : Type} (r : result A) (k : A -> result B) : result B :=
  match r with
  | Done a => k a
  | Failed f => Failed f
  end.

Declare Scope result_scope.
Delimit Scope result_scope with result.
Notation "x <- r ;; k" := (result_bind r (fun x => k))
  (at level 100, r at next level, right associativity) : result_scope.

Definition of_outcome {A : Type} (o : outcome A) : result A :=
  match o with
  | Return a => Done a
  | Throw e => Failed (thrown e)
  end.

(** The body of the loop of [parseLine] from [s.back()] to the regex check:
    the field as it is handed to the conversion. On an empty field
    [s.back()] is undefined. The model follows there the program as
    libstdc++ builds it: the character read (the byte before the characters
    of the string, a zero) is no carriage return, so that nothing is popped
    and the empty field goes on to the regex check. *)
Definition prepare (regex : regex) (s : string) : result string :=
  let s :=
    match back s with
    | Some c => if Ascii.eqb c carriage_return then pop_back s else s
    | None => s
    end in
  let s := lowercase s in
  if regex_match s regex then Done s else Failed Regex_match_fail.

(** The loop of [parseLine] over the fields; [convert] is the branch of
    [if constexpr] for the type [T]. *)
Fixpoint parse_fields {T : Type} (convert : string -> result T) (regex : regex)
    (fields : list string) : result (list T) :=
  match fields with
  | [] => Done []
  | s :: fields' =>
      if String.eqb s "#" then parse_fields convert regex fields'
      else
        (s' <- prepare regex s ;;
         t <- convert s' ;;
         data <- parse_fields convert regex fields' ;;
         Done (t :: data))%result
  end.

(** [parseLine<std::string>(line, data)], with the default expression. *)
Definition parseLine_string (delim : ascii) (line : string) : result (list string) :=
  parse_fields Done any_regex (read_fields delim EmptyString line).

(** The branch for a floating-point [T]. *)
Definition convert_fp `{External} (s : string) : result fp :=
  if contains "nan" s then Done PrimFloat.nan else of_outcome (std_stod s).

(** [parseLine<fp>(line, data, regex)] as the parsers call it. *)
Definition parseLine_fp `{External} (delim : ascii) (line : string)
  : result (list fp) :=
  parse_fields convert_fp number_regex (read_fields delim EmptyString line).

(** The characters of a number in the sense of [number_regex]. *)
Definition numeral_char (c : ascii) : bool := digit c || one_of "+-.eE" c.

Definition chars (s : string) : list ascii := list_ascii_of_string s.

(** The entry of a row in the column of a title: [it.at(idx)] for the [idx]
    that [getIndex(header, title, idx)] finds. *)
Definition entry {A : Type} (header : list string) (it : list A) (title : string)
  : option A :=
  match getIndex header title with
  | Some idx => it !! idx
  | None => None
  end.

(** ** The first halves of the parsers *)

(** The lines of a stream, as the successive [std::getline(file, line)]
    deliver them. *)
Definition lines_of (content : string) : list string :=
  read_fields line_feed EmptyString content.

(** [while (std::getline(file, line)) { parseLine(line, tmp, ...);
    data.emplace_back(tmp); }]. *)
Fixpoint parse_rows {T : Type} (parseLine : string -> result (list T))
    (lines : list string) : result (list (list T)) :=
  match lines with
  | [] => Done []
  | line :: lines' =>
      (tmp <- parseLine line ;;
       data <- parse_rows parseLine lines' ;;
       Done (tmp :: data))%result
  end.

(** The reading loop of a parser on a stream that is [good()]: the first
    line is the header (an empty line when the stream has none), the others
    are the data. *)
Definition read_table {T : Type} (delim : ascii)
    (parseLine : string -> result (list T)) (content : string)
  : result (list string * list (list T)) :=
  (header <- parseLine_string delim (hd EmptyString (lines_of content)) ;;
   data <- parse_rows parseLine (tl (lines_of content)) ;;
   Done (header, data))%result.

(** A member function that reads: how it ends and the state it leaves. *)
Definition reading (A : Type) : Type := dataParser -> result A * dataParser.

(** The whole of a parser is its reading loop followed by its second half;
    an exception of the reading loop leaves before anything is stored. *)
Definition after_reading {T : Type} (table : result (list string * list (list T)))
    (second_half : list string -> list (list T) -> method unit) : reading unit :=
  fun self =>
    match table with
    | Failed f => (Failed f, self)
    | Done (header, data) =>
        let '(o, self) := second_half header data self in (of_outcome o, self)
    end.

(** [parseAndCheckImu(imufile)] on a stream just opened, of that content. *)
Definition parseAndCheckImu_file `{External} (delim : ascii) (content : string)
  : reading unit :=
  after_reading (read_table delim (parseLine_fp delim) content)
                (parseAndCheckImu true).

(** [parseAndCheckGt(gtfile)]: the number of titles is checked before the
    stream is read. *)
Definition parseAndCheckGt_file `{External} (delim : ascii) (content : string)
  : reading unit :=
  fun self =>
    match groundtruth_flags (length (groundtruth_header_titles_ self)) with
    | Throw e => (Failed (thrown e), self)
    | Return _ =>
        after_reading (read_table delim (parseLine_fp delim) content)
                      (parseAndCheckGt true) self
    end.

(** [parseAndCheckImages(imgfile)]. *)
Definition parseAndCheckImages_file `{External} (delim : ascii) (content : string)
  : reading unit :=
  after_reading (read_table delim (parseLine_string delim) content)
                (parseAndCheckImages true).

(** ** [parseAndCheck] and the constructor *)

(** The members of [utils::dataParser] besides those of the state above. *)
Record dataParserFiles := mkFiles {
  imu_filename_ : string;
  groundtruth_filename_ : string;
  image_data_filename_ : string;
  read_imu_ : bool;
  read_gt_ : bool;
  read_images_ : bool;
  delim_ : ascii;
  members : dataParser
}.

Definition set_members (m : dataParser) (self : dataParserFiles) : dataParserFiles :=
  mkFiles (imu_filename_ self) (groundtruth_filename_ self)
          (image_data_filename_ self) (read_imu_ self) (read_gt_ self)
          (read_images_ self) (delim_ self) m.

(** The files at hand when [parseAndCheck] runs: the content of the file of
    a name that [std::ifstream] opens, and [std::filesystem::is_directory]. *)
Class FileSystem := {
  open_file : string -> option string;
  is_directory : string -> bool
}.

(** One step of [parseAndCheck] on the members above. *)
Definition parse_step (step : reading unit) (self : dataParserFiles)
  : result unit * dataParserFiles :=
  let '(r, m) := step (members self) in (r, set_members m self).

Definition parseAndCheck `{External} `{FileSystem} (self : dataParserFiles)
  : result unit * dataParserFiles :=
  let imufile := open_file (imu_filename_ self) in
  let gtfile := open_file (groundtruth_filename_ self) in
  let imgfile := open_file (image_data_filename_ self) in
  let self :=
    mkFiles (imu_filename_ self) (groundtruth_filename_ self)
            (image_data_filename_ self)
            (negb (String.eqb (imu_filename_ self) ""))
            (negb (String.eqb (groundtruth_filename_ self) ""))
            (negb (String.eqb (image_data_filename_ self) ""))
            (delim_ self) (members self) in
  let '(gt_done, self) :=
    if read_gt_ self then
      match gtfile with
      | None => (Failed Error_opening_GT_file, self)
      | Some content => parse_step (parseAndCheckGt_file (delim_ self) content) self
      end
    else (Done tt, self) in
  match gt_done with
  | Failed f => (Failed f, self)
  | Done _ =>
      let '(imu_done, self) :=
        if read_imu_ self then
          match imufile with
          | None => (Failed Error_opening_IMU_file, self)
          | Some content =>
              parse_step (parseAndCheckImu_file (delim_ self) content) self
          end
        else (Done tt, self) in
      match imu_done with
      | Failed f => (Failed f, self)
      | Done _ =>
          if read_images_ self then
            match imgfile, is_directory (image_data_folder_ (members self)) with
            | Some content, true =>
                parse_step (parseAndCheckImages_file (delim_ self) content) self
            | _, _ => (Failed Error_opening_IMAGE_file, self)
            end
          else (Done tt, self)
      end
  end.

(** The constructor: the titles are lowered, the data is empty. *)
Definition construct
    (imu_data_filename groundtruth_data_filename image_data_filename
       image_data_folder : string)
    (imu_header_titles groundtruth_header_titles image_header_titles : list string)
    (delimiter : ascii) (timeoffset : fp) : dataParserFiles :=
  mkFiles imu_data_filename groundtruth_data_filename image_data_filename
          false false false delimiter
          (mkDataParser image_data_folder
             (lowercase <$> imu_header_titles)
             (lowercase <$> groundtruth_header_titles)
             (lowercase <$> image_header_titles)
             [] [] [] timeoffset).

(** ** Small files to run the parsers on *)

Definition lines (l : list string) : string :=
  String.concat (String line_feed EmptyString) l.

Definition example_image_file : string :=
  lines ["Name,T"; "cam0/A.png,3"; "cam0/b.png,5"].
Definition example_missing_title_file : string :=
  lines ["t,w_x"; "1,2"; "3,4"].
Definition example_blank_line_file : string :=
  lines ["t,name"; ""; "3,a.png"].

Definition example_imu_file : string :=
  lines ["A_x,a_y,a_z,T,w_x,w_y,w_z"; "1,2,3,1403636579763555584,4,5,6";
         "0,0,0,7,1,1,1"].

(** A file system with the IMU file alone. *)
Definition example_files : FileSystem := {|
  open_file := fun name =>
    if String.eqb name "imu.csv" then Some example_imu_file else None;
  is_directory := fun _ => false
|}.

Definition example_parser_files (groundtruth_filename : string) : dataParserFiles :=
  mkFiles "imu.csv" groundtruth_filename "" false false false "," example_parser.

End Reading.

(** * Replaying the readings

    A program that replays a dataset asks [getSensorsTimestamps] for the
    timestamps and then calls [consumeSensorReadingAt] for each of them in
    turn. [consume_all] is that sequence of calls. *)

Module Replay.
Import DataParser.

(** [for (const auto& timestamp : timestamps)
      readings.emplace_back(consumeSensorReadingAt(timestamp));] where the
    first exception ends the loop. *)
Fixpoint consume_all (timestamps : list fp) (self : dataParser)
  : outcome (list (Imu + Camera)) * dataParser :=
  match timestamps with
  | [] => (Return [], self)
  | timestamp :: timestamps' =>
      match consumeSensorReadingAt timestamp self with
      | (Return data, self) =>
          match consume_all timestamps' self with
          | (Return readings, self) => (Return (data :: readings), self)
          | (Throw e, self) => (Throw e, self)
          end
      | (Throw e, self) => (Throw e, self)
      end
  end.

(** The timestamps of the stored readings, as [getSensorsTimestamps]
    collects them before it sorts. *)
Definition stored_timestamps (self : dataParser) : list fp :=
  (imu_timestamp_ <$> imu_data_ self) ++ (cam_timestamp_ <$> image_data_ self).

(** The queries [Q] answer the stored timestamps [R]: some arrangement of
    [Q] is, position by position, [==] to [R]. *)
Definition answers (Q R : list fp) : Prop :=
  exists l, Q ≡ₚ l /\ Forall2 (fun q r => fp_eq r q = true) l R.

(** The state with no sensor reading left. *)
Definition emptied (self : dataParser) : dataParser :=
  set_image_data_ [] (set_imu_data_ [] self).

Definition example_nan_parser : dataParser :=
  set_imu_data_ [example_imu 1 0.25; example_imu nan 0.5]%float example_parser.

End Replay.

(** * Facts on the parser *)

Module DataParserFacts.
Import DataParser.

(** ** Iterators *)

Section find_if_facts.
Context {A : Type} (pred : A -> bool).

Lemma find_if_None (v : list A) :
  find_if pred v = None <-> Forall (fun a => pred a = false) v.
Proof.
  induction v as [|a v IH]; simpl.
  - split; [constructor | reflexivity].
  - destruct (pred a) eqn:Ha.
    + split; [discriminate | intros H; inversion H; congruence].
    + destruct (find_if pred v) as [[i b]|] eqn:Hv.
      * split; [discriminate |].
        intros H. inversion H as [|? ? _ Hrest]; subst.
        apply IH in Hrest. discriminate.
      * split; [| reflexivity].
        intros _. constructor; [assumption | now apply IH].
Qed.

Lemma find_if_first (before : list A) (a : A) (after : list A) :
  Forall (fun b => pred b = false) before ->
  pred a = true ->
  find_if pred (before ++ a :: after) = Some (length before, a).
Proof.
  induction before as [|b before IH]; simpl; intros Hbefore Ha.
  - now rewrite Ha.
  - inversion Hbefore as [|? ? Hb Hrest]; subst.
    rewrite Hb, (IH Hrest Ha). reflexivity.
Qed.

Lemma find_if_Some (v : list A) (i : nat) (a : A) :
  find_if pred v = Some (i, a) ->
  exists before after,
    v = before ++ a :: after /\ length before = i /\
    Forall (fun b => pred b = false) before /\ pred a = true.
Proof.
  revert i. induction v as [|b v IH]; simpl; intros i H; [discriminate|].
  destruct (pred b) eqn:Hb.
  - injection H as <- <-. exists [], v. repeat split; auto.
  - destruct (find_if pred v) as [[j c]|] eqn:Hv; [|discriminate].
    injection H as <- <-.
    destruct (IH j eq_refl) as (before & after & -> & <- & Hbefore & Ha).
    exists (b :: before), after. repeat split; auto.
Qed.

Lemma erase_middle (before : list A) (a : A) (after : list A) :
  erase (length before) (before ++ a :: after) = before ++ after.
Proof.
  unfold erase. induction before as [|b before IH]; simpl; [reflexivity|].
  f_equal. exact IH.
Qed.

Lemma lookup_last_before (before : list A) (p a : A) (after : list A) :
  ((before ++ [p]) ++ a :: after) !! length before = Some p.
Proof.
  induction before as [|b before IH]; simpl; [reflexivity | exact IH].
Qed.

End find_if_facts.

(** ** [consumeSensorReadingAt] *)



(** A NaN matches no stored timestamp, a stored NaN included. *)
Example consumeSensorReadingAt_nan :
  consumeSensorReadingAt nan (set_imu_data_ [example_imu nan 0%float] example_parser)
  = (Throw (runtime_error (No_sensor_reading_found_at_timestamp nan)),
     set_imu_data_ [example_imu nan 0%float] example_parser).
Proof. reflexivity. Qed.

(** ** [getCloserGroundtruthAt] *)

(** [<] on binary64 is asymmetric and irreflexive, NaN included. *)
Lemma SFcompare_antisym (a b : SpecFloat.spec_float) :
  SpecFloat.SFcompare b a = option_map CompOpp (SpecFloat.SFcompare a b).
Proof.
  destruct a as [s1|s1| |s1 m1 e1], b as [s2|s2| |s2 m2 e2]; simpl;
    try reflexivity; try (destruct s1; reflexivity); try (destruct s2; reflexivity);
    try (destruct s1, s2; reflexivity).
  destruct s1, s2; simpl; try reflexivity.
  - rewrite (Z.compare_antisym e1 e2).
    destruct (e1 ?= e2)%Z; simpl; try reflexivity.
    change (Pos.compare_cont Eq m2 m1) with (m2 ?= m1)%positive.
    change (Pos.compare_cont Eq m1 m2) with (m1 ?= m2)%positive.
    now rewrite (Pos.compare_antisym m1 m2).
  - rewrite (Z.compare_antisym e1 e2).
    destruct (e1 ?= e2)%Z; simpl; try reflexivity.
    change (Pos.compare_cont Eq m2 m1) with (m2 ?= m1)%positive.
    change (Pos.compare_cont Eq m1 m2) with (m1 ?= m2)%positive.
    now rewrite (Pos.compare_antisym m1 m2).
Qed.

Lemma fp_gt_asym (a b : fp) : fp_gt a b = true -> fp_gt b a = false.
Proof.
  unfold fp_gt. rewrite !FloatAxioms.ltb_spec. unfold SpecFloat.SFltb.
  rewrite (SFcompare_antisym (FloatOps.Prim2SF b) (FloatOps.Prim2SF a)).
  destruct (SpecFloat.SFcompare _ _) as [[]|]; simpl; congruence.
Qed.

Lemma fp_gt_irrefl (a : fp) : fp_gt a a = false.
Proof.
  destruct (fp_gt a a) eqn:H; [|reflexivity].
  pose proof (fp_gt_asym a a H). congruence.
Qed.

(** C10, amended. [getCloserGroundtruthAt(t)]: (1) when no stored record has
    a timestamp [> t] the call throws the runtime error, whatever records
    with a timestamp at or before [t] are stored; (2) when the first stored
    record already has a timestamp [> t], it is returned; (3) otherwise,
    with [gt] the first record whose timestamp is [> t] and [prev] the
    record just before it, the distances are the binary64 values
    [std::abs(gt - t)] and [std::abs(prev - t)], rounded as the subtraction
    rounds: [prev] is returned when the first is [>] the second, and [gt]
    when not, so that the record returned is one of the two and its
    distance, so computed, is not [>] that of either. *)
Theorem getCloserGroundtruthAt_spec (timestamp : fp) (self : dataParser) :
  (Forall (fun r => fp_gt (timestamp_ r) timestamp = false) (groundtruth_data_ self) ->
   getCloserGroundtruthAt timestamp self
   = Throw (runtime_error (No_groundtruth_data_found_at_timestamp timestamp)))
  /\ (forall gt after,
        groundtruth_data_ self = gt :: after ->
        fp_gt (timestamp_ gt) timestamp = true ->
        getCloserGroundtruthAt timestamp self = Return gt)
  /\ (forall before prev gt after,
        groundtruth_data_ self = before ++ prev :: gt :: after ->
        Forall (fun r => fp_gt (timestamp_ r) timestamp = false) (before ++ [prev]) ->
        fp_gt (timestamp_ gt) timestamp = true ->
        let distance r := PrimFloat.abs (PrimFloat.sub (timestamp_ r) timestamp) in
        getCloserGroundtruthAt timestamp self
        = Return (if fp_gt (distance gt) (distance prev) then prev else gt)
        /\ forall r,
            getCloserGroundtruthAt timestamp self = Return r ->
            (r = prev \/ r = gt) /\
            fp_gt (distance r) (distance prev) = false /\
            fp_gt (distance r) (distance gt) = false).
Proof.
  split; [|split].
  - unfold getCloserGroundtruthAt.
    intros Hnone. apply find_if_None in Hnone. rewrite Hnone. reflexivity.
  - unfold getCloserGroundtruthAt.
    intros gt after Hdata Hgt. rewrite Hdata. simpl. rewrite Hgt. reflexivity.
  - intros before prev gt after Hdata Hbefore Hgt distance.
    assert (Hrun : getCloserGroundtruthAt timestamp self
                   = Return (if fp_gt (distance gt) (distance prev)
                             then prev else gt)).
    { unfold getCloserGroundtruthAt.
      assert (Hsplit : groundtruth_data_ self = (before ++ [prev]) ++ gt :: after)
        by (rewrite Hdata, <- app_assoc; reflexivity).
      rewrite Hsplit.
      rewrite (find_if_first (fun r => fp_gt (timestamp_ r) timestamp)
                 (before ++ [prev]) gt after Hbefore Hgt).
      rewrite length_app. simpl. rewrite Nat.add_1_r.
      rewrite lookup_last_before. unfold time_distance. fold (distance gt).
      fold (distance prev).
      destruct (fp_gt (distance gt) (distance prev)); reflexivity. }
    split; [exact Hrun|].
    intros r Hr. rewrite Hrun in Hr.
    destruct (fp_gt (distance gt) (distance prev)) eqn:Hcmp; injection Hr as <-.
    + split; [now left|]. split; [apply fp_gt_irrefl | now apply fp_gt_asym].
    + split; [now right|]. split; [exact Hcmp | apply fp_gt_irrefl].
Qed.

Lemma getCloserGroundtruthAt_witness :
  getCloserGroundtruthAt 2.5%float example_parser
  = Return (example_groundtruth 2%float)
  /\ forall r,
      getCloserGroundtruthAt 2.5%float example_parser = Return r ->
      (r = example_groundtruth 2%float \/ r = example_groundtruth 5%float) /\
      fp_gt (PrimFloat.abs (PrimFloat.sub (timestamp_ r) 2.5))
            (PrimFloat.abs (PrimFloat.sub 2 2.5)) = false /\
      fp_gt (PrimFloat.abs (PrimFloat.sub (timestamp_ r) 2.5))
            (PrimFloat.abs (PrimFloat.sub 5 2.5)) = false.
Proof.
  exact (proj2 (proj2 (getCloserGroundtruthAt_spec 2.5%float example_parser))
           [example_groundtruth 1%float] (example_groundtruth 2%float)
           (example_groundtruth 5%float) [] eq_refl
           ltac:(repeat constructor) eq_refl).
Defined.

(** The claim as it was stated fails: between the records stamped [2^-24]
    and [2^31], asked at [2^30], the call returns the second, whose distance
    [2^30] is the greater one by [2^-24]; both subtractions give [2^30]. *)
Lemma getCloserGroundtruthAt_counterexample :
  getCloserGroundtruthAt 1073741824%float example_rounding_parser
  = Return (example_groundtruth 2147483648%float)
  /\ PrimFloat.abs (PrimFloat.sub 0x1p-24 1073741824) = 1073741824%float
  /\ PrimFloat.abs (PrimFloat.sub 2147483648 1073741824) = 1073741824%float
  /\ exists d_prev d_gt,
       exact_distance 0x1p-24%float 1073741824%float = Some d_prev /\
       exact_distance 2147483648%float 1073741824%float = Some d_gt /\
       QArith_base.Qlt d_prev d_gt.
Proof.
  split; [reflexivity|]. split; [reflexivity|]. split; [reflexivity|].
  eexists _, _. split; [vm_compute; reflexivity|].
  split; [vm_compute; reflexivity|]. reflexivity.
Defined.

(** The last stored record has timestamp 5: asked at 5, or at any later
    time, the call throws, and asked just before, it answers. *)
Example getCloserGroundtruthAt_last :
  getCloserGroundtruthAt 5%float example_parser
  = Throw (runtime_error (No_groundtruth_data_found_at_timestamp 5%float))
  /\ getCloserGroundtruthAt 4.75%float example_parser
     = Return (example_groundtruth 5%float)
  /\ getCloserGroundtruthAt 3.5%float example_parser
     = Return (example_groundtruth 5%float).
Proof. repeat split; reflexivity. Qed.

(** ** The parsing loops *)

Section loops.
Context {A B : Type}.
Context (read : dataParser -> A -> outcome B).
Context (get : dataParser -> list B) (set : list B -> dataParser -> dataParser).
Context (get_set : forall v self, get (set v self) = v).
Context (set_get : forall self, set (get self) self = self).
Context (set_set : forall v w self, set v (set w self) = set v self).
Context (read_set : forall v self it, read (set v self) it = read self it).

(** A loop that reads one record per row and pushes it at the back of a
    stored vector ends normally exactly when every row can be read, and then
    the vector has grown by the records read, in the order of the rows. *)
Lemma for_each_emplace_back (data : list A) (self self' : dataParser) :
  for_each (fun it self =>
              method_bind (method_of (read self it))
                (fun b => modify (fun self => set (get self ++ [b]) self)) self)
           data self = (Return tt, self') ->
  exists records,
    Forall2 (fun it b => read self it = Return b) data records /\
    self' = set (get self ++ records) self.
Proof.
  revert self. induction data as [|it data IH]; simpl; intros self Hrun.
  - injection Hrun as <-. exists []. split; [constructor|].
    now rewrite app_nil_r, set_get.
  - unfold method_bind at 1 in Hrun.
    unfold method_bind at 1 in Hrun. unfold method_of, modify in Hrun.
    destruct (read self it) as [b|e] eqn:Hread; [|discriminate].
    apply IH in Hrun. destruct Hrun as (records & Hall & ->).
    exists (b :: records). split.
    + constructor; [assumption|].
      eapply Forall2_impl; [exact Hall|].
      intros it' b'. simpl. now rewrite read_set.
    + rewrite get_set, set_set, <- app_assoc. reflexivity.
Qed.
End loops.

Lemma Forall2_choose {A B C : Type} (P : A -> C -> Prop) (f : B -> C -> Prop)
    (data : list A) (records : list B) :
  Forall2 (fun it b => exists t, P it t /\ f b t) data records ->
  exists raw, Forall2 P data raw /\ Forall2 f records raw.
Proof.
  induction 1 as [|it b data records (t & HP & Hf) _ (raw & Hraw & Heq)].
  - exists []. split; constructor.
  - exists (t :: raw). split; constructor; assumption.
Qed.

Lemma Forall2_fmap_eq {B C D : Type} (f : B -> D) (g : C -> D)
    (records : list B) (raw : list C) :
  Forall2 (fun b t => f b = g t) records raw -> f <$> records = g <$> raw.
Proof. induction 1; csimpl; [reflexivity | f_equal; assumption]. Qed.

Lemma outcome_bind_Return {A B : Type} (o : outcome A) (k : A -> outcome B) (b : B) :
  outcome_bind o k = Return b -> exists a, o = Return a /\ k a = Return b.
Proof. destruct o as [a|e]; simpl; [eauto | discriminate]. Qed.

Ltac bind_inv H :=
  let a := fresh "a" in
  let Ha := fresh "Ha" in
  apply outcome_bind_Return in H; destruct H as (a & Ha & H).

Lemma read_imu_timestamp (indices : list nat) (it : list fp) (imu : Imu) :
  read_imu indices it = Return imu ->
  exists t, column indices it 0 = Return t /\ imu_timestamp_ imu = rescale t.
Proof.
  unfold read_imu. intros H. bind_inv H. exists a. split; [assumption|].
  repeat bind_inv H. injection H as <-. reflexivity.
Qed.

Lemma read_groundtruth_timestamp `{External} (hv hb : bool)
    (indices : list nat) (it : list fp) (gt : Groundtruth) :
  read_groundtruth hv hb indices it = Return gt ->
  exists t, column indices it 0 = Return t /\ timestamp_ gt = rescale t.
Proof.
  unfold read_groundtruth. intros H0. bind_inv H0. exists a. split; [assumption|].
  repeat bind_inv H0. injection H0 as <-. reflexivity.
Qed.

Lemma read_camera_timestamp `{External} (self : dataParser)
    (indices : list nat) (it : list string) (cam : Camera) :
  read_camera self indices it = Return cam ->
  exists t, outcome_bind (column indices it 0) std_stod = Return t /\
            cam_timestamp_ cam = PrimFloat.add (rescale t) (timeoffset_ self).
Proof.
  unfold read_camera. intros H0. bind_inv H0. bind_inv H0.
  exists a0. split; [rewrite Ha; exact Ha0|].
  repeat bind_inv H0. injection H0 as <-. reflexivity.
Qed.

Section parsers.
Context `{External}.
Context (std_sort_Permutation :
           forall (A : Type) (lt : A -> A -> bool) (v : list A), std_sort A lt v ≡ₚ v).

Lemma parseAndCheckImu_timestamps header data self self' :
  parseAndCheckImu true header data self = (Return tt, self') ->
  exists raw,
    Forall2 (fun it t =>
               column (getIndices header (imu_header_titles_ self) []).2.2 it 0
               = Return t) data raw /\
    imu_timestamp_ <$> imu_data_ self' ≡ₚ rescale <$> raw.
Proof.
  unfold parseAndCheckImu. unfold method_bind at 1.
  destruct (getIndices header (imu_header_titles_ self) [])
    as [found [[header' titles] indices]] eqn:Hidx. simpl.
  destruct found; simpl; [|discriminate].
  unfold method_bind at 1. unfold modify at 1.
  match goal with
  | |- context [for_each ?body data ?s] =>
      destruct (for_each body data s) as [[[]|e] self1] eqn:Hloop
  end; [|discriminate].
  unfold modify. intros Hrun. injection Hrun as <-.
  apply (for_each_emplace_back (fun _ it => read_imu indices it)
           imu_data_ set_imu_data_) in Hloop;
    [|reflexivity|intros []; reflexivity|reflexivity|reflexivity].
  destruct Hloop as (records & Hall & ->). simpl in *.
  destruct (Forall2_choose
              (fun it t => column indices it 0 = Return t)
              (fun imu t => imu_timestamp_ imu = rescale t) data records)
    as (raw & Hraw & Hts).
  { eapply Forall2_impl; [exact Hall|]. intros it b. apply read_imu_timestamp. }
  exists raw. split; [assumption|].
  rewrite std_sort_Permutation. now rewrite (Forall2_fmap_eq _ _ _ _ Hts).
Qed.

Lemma parseAndCheckGt_timestamps header data self self' :
  parseAndCheckGt true header data self = (Return tt, self') ->
  exists raw,
    Forall2 (fun it t =>
               column (getIndices header (groundtruth_header_titles_ self) []).2.2 it 0
               = Return t) data raw /\
    timestamp_ <$> groundtruth_data_ self' ≡ₚ rescale <$> raw.
Proof.
  unfold parseAndCheckGt. unfold method_bind at 1.
  destruct (groundtruth_flags (length (groundtruth_header_titles_ self)))
    as [[have_velocity have_bias]|e]; [|discriminate].
  unfold method_bind at 1.
  destruct (getIndices header (groundtruth_header_titles_ self) [])
    as [found [[header' titles] indices]] eqn:Hidx. simpl.
  destruct found; simpl; [|discriminate].
  unfold method_bind at 1. unfold modify at 1.
  match goal with
  | |- context [for_each ?body data ?s] =>
      destruct (for_each body data s) as [[[]|e] self1] eqn:Hloop
  end; [|discriminate].
  unfold modify. intros Hrun. injection Hrun as <-.
  apply (for_each_emplace_back
           (fun _ it => read_groundtruth have_velocity have_bias indices it)
           groundtruth_data_ set_groundtruth_data_) in Hloop;
    [|reflexivity|intros []; reflexivity|reflexivity|reflexivity].
  destruct Hloop as (records & Hall & ->). simpl in *.
  destruct (Forall2_choose
              (fun it t => column indices it 0 = Return t)
              (fun gt t => timestamp_ gt = rescale t) data records)
    as (raw & Hraw & Hts).
  { eapply Forall2_impl; [exact Hall|]. intros it b.
    apply read_groundtruth_timestamp. }
  exists raw. split; [assumption|].
  rewrite std_sort_Permutation. now rewrite (Forall2_fmap_eq _ _ _ _ Hts).
Qed.

Lemma parseAndCheckImages_timestamps header data self self' :
  parseAndCheckImages true header data self = (Return tt, self') ->
  exists raw,
    Forall2 (fun it t =>
               outcome_bind
                 (column (getIndices header (image_header_titles_ self) []).2.2 it 0)
                 std_stod
               = Return t) data raw /\
    cam_timestamp_ <$> image_data_ self'
    ≡ₚ (fun t => PrimFloat.add (rescale t) (timeoffset_ self)) <$> raw.
Proof.
  unfold parseAndCheckImages. unfold method_bind at 1.
  destruct (getIndices header (image_header_titles_ self) [])
    as [found [[header' titles] indices]] eqn:Hidx. simpl.
  destruct found; simpl; [|discriminate].
  unfold method_bind at 1. unfold modify at 1.
  match goal with
  | |- context [for_each ?body data ?s] =>
      destruct (for_each body data s) as [[[]|e] self1] eqn:Hloop
  end; [|discriminate].
  unfold modify. intros Hrun. injection Hrun as <-.
  apply (for_each_emplace_back
           (fun self it => read_camera self indices it)
           image_data_ set_image_data_) in Hloop;
    [|reflexivity|intros []; reflexivity|reflexivity|reflexivity].
  destruct Hloop as (records & Hall & ->). simpl in *.
  destruct (Forall2_choose
              (fun it t => outcome_bind (column indices it 0) std_stod = Return t)
              (fun cam t => cam_timestamp_ cam
                            = PrimFloat.add (rescale t) (timeoffset_ self))
              data records)
    as (raw & Hraw & Hts).
  { eapply Forall2_impl; [exact Hall|]. intros it b Hb.
    apply read_camera_timestamp in Hb. exact Hb. }
  exists raw. split; [assumption|].
  rewrite std_sort_Permutation. now rewrite (Forall2_fmap_eq _ _ _ _ Hts).
Qed.
End parsers.

(** ** Timestamps as the parsers store them *)

(** A timestamp in nanoseconds, the threshold itself, and a timestamp in
    seconds. *)
Example rescale_examples :
  rescale 1403636579763555584%float = 0x1.4ea72d8f0de18p+30%float
  /\ rescale 10e12%float = 10e12%float
  /\ rescale 1403636579.75%float = 1403636579.75%float.
Proof. repeat split; reflexivity. Qed.

(** C9. Let [std::sort] permute the vector it is given (what the standard
    promises when [operator<] orders the elements; whatever else it does).
    After a parser has run to its end, the stored timestamps are, up to the
    order the sort leaves, the raw timestamp columns of the rows with every
    value [> 10e12] divided by [1e9] and every other value as it is (the
    value [10e12] itself and a NaN among them); for the IMU and the
    groundtruth that is all, for the camera the time offset is then
    added. *)
Theorem parsed_timestamps `{External} :
  (forall (A : Type) (lt : A -> A -> bool) (v : list A), std_sort A lt v ≡ₚ v) ->
  forall (header : list string) (self self' : dataParser),
    (forall data,
        parseAndCheckImu true header data self = (Return tt, self') ->
        exists raw,
          Forall2 (fun it t =>
                     column (getIndices header (imu_header_titles_ self) []).2.2 it 0
                     = Return t) data raw /\
          imu_timestamp_ <$> imu_data_ self'
          ≡ₚ (fun t => if PrimFloat.ltb 10e12 t then PrimFloat.div t 1e9 else t)
               <$> raw)
    /\ (forall data,
          parseAndCheckGt true header data self = (Return tt, self') ->
          exists raw,
            Forall2 (fun it t =>
                       column (getIndices header (groundtruth_header_titles_ self) []).2.2
                              it 0
                       = Return t) data raw /\
            timestamp_ <$> groundtruth_data_ self'
            ≡ₚ (fun t => if PrimFloat.ltb 10e12 t then PrimFloat.div t 1e9 else t)
                 <$> raw)
    /\ (forall data,
          parseAndCheckImages true header data self = (Return tt, self') ->
          exists raw,
            Forall2 (fun it t =>
                       outcome_bind
                         (column (getIndices header (image_header_titles_ self) []).2.2
                                 it 0)
                         std_stod
                       = Return t) data raw /\
            cam_timestamp_ <$> image_data_ self'
            ≡ₚ (fun t => PrimFloat.add
                           (if PrimFloat.ltb 10e12 t then PrimFloat.div t 1e9 else t)
                           (timeoffset_ self)) <$> raw).
Proof.
  intros Hsort header self self'.
  split; [|split]; intros data Hrun.
  - exact (parseAndCheckImu_timestamps Hsort header data self self' Hrun).
  - exact (parseAndCheckGt_timestamps Hsort header data self self' Hrun).
  - exact (parseAndCheckImages_timestamps Hsort header data self self' Hrun).
Qed.

Lemma insert_sorted_Permutation {A : Type} (lt : A -> A -> bool) (a : A) (v : list A) :
  insert_sorted lt a v ≡ₚ a :: v.
Proof.
  induction v as [|b v IH]; simpl; [reflexivity|].
  destruct (lt b a); [|reflexivity].
  rewrite IH. apply Permutation_swap.
Qed.

Lemma insertion_sort_Permutation (A : Type) (lt : A -> A -> bool) (v : list A) :
  insertion_sort A lt v ≡ₚ v.
Proof.
  unfold insertion_sort. induction v as [|a v IH]; simpl; [reflexivity|].
  now rewrite insert_sorted_Permutation, IH.
Qed.

Lemma parsed_timestamps_witness :
  (exists raw,
      Forall2 (fun it t => at_ it 3 = Return t) example_imu_rows raw /\
      imu_timestamp_
        <$> imu_data_ (snd (@parseAndCheckImu simple_External true
                              example_imu_header example_imu_rows example_parser))
      ≡ₚ (fun t => if PrimFloat.ltb 10e12 t then PrimFloat.div t 1e9 else t) <$> raw)
  /\ (exists raw,
        Forall2 (fun it t => at_ it 3 = Return t) example_groundtruth8_ns_rows raw /\
        timestamp_
          <$> groundtruth_data_
                (snd (@parseAndCheckGt simple_External true
                        example_groundtruth8_header example_groundtruth8_ns_rows
                        example_groundtruth8_parser))
        ≡ₚ (fun t => if PrimFloat.ltb 10e12 t then PrimFloat.div t 1e9 else t)
             <$> raw)
  /\ (exists raw,
        Forall2 (fun it t => outcome_bind (at_ it 1) stod_unsigned = Return t)
                example_image_ns_rows raw /\
        cam_timestamp_
          <$> image_data_
                (snd (@parseAndCheckImages simple_External true
                        example_image_header example_image_ns_rows example_parser))
        ≡ₚ (fun t => PrimFloat.add
                       (if PrimFloat.ltb 10e12 t then PrimFloat.div t 1e9 else t)
                       0.5) <$> raw).
Proof.
  split; [|split].
  - apply (proj1 (@parsed_timestamps simple_External insertion_sort_Permutation
                    example_imu_header example_parser
                    (snd (@parseAndCheckImu simple_External true
                            example_imu_header example_imu_rows example_parser)))
             example_imu_rows).
    vm_compute. reflexivity.
  - apply (proj1 (proj2 (@parsed_timestamps simple_External insertion_sort_Permutation
                           example_groundtruth8_header example_groundtruth8_parser
                           (snd (@parseAndCheckGt simple_External true
                                   example_groundtruth8_header
                                   example_groundtruth8_ns_rows
                                   example_groundtruth8_parser))))
             example_groundtruth8_ns_rows).
    vm_compute. reflexivity.
  - apply (proj2 (proj2 (@parsed_timestamps simple_External insertion_sort_Permutation
                           example_image_header example_parser
                           (snd (@parseAndCheckImages simple_External true
                                   example_image_header example_image_ns_rows
                                   example_parser))))
             example_image_ns_rows).
    vm_compute. reflexivity.
Defined.

(** The rows of the three examples, as stored: the nanosecond stamp in
    seconds, the small ones as they were, the camera's with the offset of
    one half added, in the order of the sort. *)
Example parsed_timestamps_example :
  timestamp_
    <$> groundtruth_data_
          (snd (@parseAndCheckGt simple_External true example_groundtruth8_header
                  example_groundtruth8_ns_rows example_groundtruth8_parser))
  = [2.5; 0x1.4ea72d8f0de18p+30]%float
  /\ cam_timestamp_
       <$> image_data_
             (snd (@parseAndCheckImages simple_External true example_image_header
                     example_image_ns_rows example_parser))
     = [5.5; 0x1.4ea72d910de18p+30]%float.
Proof. vm_compute. split; reflexivity. Qed.

(** The two rows of the example, as stored: the nanosecond stamp in seconds,
    the small one as it was, in the order of the sort. *)
Example parseAndCheckImu_example :
  imu_timestamp_
    <$> imu_data_ (snd (@parseAndCheckImu simple_External true
                          example_imu_header example_imu_rows example_parser))
  = [7.5; 0x1.4ea72d8f0de18p+30]%float.
Proof. vm_compute. reflexivity. Qed.

(** ** More on the parser *)

Lemma getIndex_None (data : list string) (token : string) :
  getIndex data token = None <-> token ∉ data.
Proof.
  unfold getIndex.
  destruct (find_if (fun s => bool_decide (s = token)) data) as [[i s]|] eqn:Hfind.
  - split; [discriminate|]. intros Hnot. exfalso. apply Hnot.
    apply find_if_Some in Hfind.
    destruct Hfind as (before & after & -> & _ & _ & Hs).
    apply bool_decide_eq_true in Hs. subst s. set_solver.
  - split; [|reflexivity]. intros _ Hin.
    apply find_if_None in Hfind.
    rewrite Forall_forall in Hfind. specialize (Hfind token Hin).
    apply bool_decide_eq_false in Hfind. now apply Hfind.
Qed.

Lemma getIndex_Some (data : list string) (token : string) (index : nat) :
  getIndex data token = Some index <->
  exists before after,
    data = before ++ token :: after /\ (token ∉ before) /\ length before = index.
Proof.
  unfold getIndex. split.
  - destruct (find_if (fun s => bool_decide (s = token)) data) as [[i s]|] eqn:Hfind;
      [|discriminate].
    intros [= <-]. apply find_if_Some in Hfind.
    destruct Hfind as (before & after & -> & <- & Hbefore & Hs).
    apply bool_decide_eq_true in Hs. subst s.
    exists before, after. split; [reflexivity|]. split; [|reflexivity].
    intros Hin. rewrite Forall_forall in Hbefore. specialize (Hbefore token Hin).
    now apply bool_decide_eq_false in Hbefore.
  - intros (before & after & -> & Hbefore & <-).
    rewrite (find_if_first _ before token after); [reflexivity| |].
    + apply Forall_forall. intros s Hs. apply bool_decide_eq_false.
      intros ->. exact (Hbefore Hs).
    + now apply bool_decide_eq_true.
Qed.

(** X1. [getIndex] answers with the position of the first occurrence of the
    token, and fails when the token does not occur. *)
Theorem getIndex_spec (data : list string) (token : string) :
  (token ∉ data -> getIndex data token = None)
  /\ (forall before after,
        data = before ++ token :: after -> token ∉ before ->
        getIndex data token = Some (length before)).
Proof.
  split.
  - apply getIndex_None.
  - intros before after Hdata Hbefore. apply getIndex_Some.
    exists before, after. auto.
Qed.

Lemma getIndices_loop_spec (header titles : list string) (indices : list nat) :
  let '(found, indices') := getIndices_loop header titles indices in
  (found = true <-> Forall (fun title => title ∈ header) titles) /\
  (found = true ->
   exists new,
     indices' = indices ++ new /\
     Forall2 (fun title index => getIndex header title = Some index) titles new).
Proof.
  revert indices. induction titles as [|it titles IH]; simpl; intros indices.
  - split; [split; auto|]. intros _. exists []. split; [|constructor].
    now rewrite app_nil_r.
  - destruct (getIndex header it) as [idx|] eqn:Hidx.
    + specialize (IH (indices ++ [idx])).
      destruct (getIndices_loop header titles (indices ++ [idx])) as [found indices'].
      destruct IH as [Hiff Hnew]. split.
      * rewrite Hiff. split.
        -- intros Hall. constructor; [|exact Hall].
           destruct (decide (it ∈ header)) as [Hin|Hnot]; [exact Hin|].
           apply getIndex_None in Hnot. congruence.
        -- intros Hall. now inversion Hall.
      * intros Hfound. destruct (Hnew Hfound) as (new & -> & Hall).
        exists (idx :: new). split; [now rewrite <- app_assoc|].
        constructor; assumption.
    + split; [|discriminate]. split; [discriminate|].
      intros Hall. inversion Hall as [|? ? Hin _]; subst.
      apply getIndex_None in Hidx. contradiction.
Qed.

(** X7. [getIndices] trims the header and the titles, returns [true] exactly
    when every trimmed title occurs in the trimmed header, and then leaves in
    [indices], in the order of the titles, the position of the first
    occurrence of each title in the header. *)
Theorem getIndices_spec `{External} (header titles : list string) :
  let '(found, (header', titles', indices)) := getIndices header titles [] in
  header' = trimString <$> header /\
  titles' = trimString <$> titles /\
  (found = true <-> Forall (fun title => title ∈ header') titles') /\
  (found = true ->
   Forall2 (fun title index => getIndex header' title = Some index) titles' indices).
Proof.
  unfold getIndices.
  pose proof (getIndices_loop_spec (trimString <$> header) (trimString <$> titles) [])
    as Hloop.
  destruct (getIndices_loop (trimString <$> header) (trimString <$> titles) [])
    as [found indices].
  destruct Hloop as [Hiff Hnew].
  repeat split; try apply Hiff.
  intros Hfound. destruct (Hnew Hfound) as (new & -> & Hall). exact Hall.
Qed.

Lemma getIndices_loop_length (header titles : list string) (indices indices' : list nat) :
  getIndices_loop header titles indices = (true, indices') ->
  length indices' = length indices + length titles.
Proof.
  revert indices. induction titles as [|it titles IH]; simpl; intros indices H.
  - injection H as <-. lia.
  - destruct (getIndex header it) as [idx|]; [|discriminate].
    apply IH in H. rewrite H, length_app. simpl. lia.
Qed.

Lemma at_out_of_range {A : Type} (v : list A) (n : nat) :
  length v <= n -> at_ v n = Throw out_of_range.
Proof. intros H. unfold at_. now rewrite lookup_ge_None_2. Qed.


Lemma read_groundtruth_14 `{External} (have_velocity : bool)
    (indices : list nat) (it : list fp) :
  length indices = 14 ->
  forall gt, read_groundtruth have_velocity true indices it <> Return gt.
Proof.
  intros Hlen gt Hread. unfold read_groundtruth in Hread.
  repeat bind_inv Hread.
  match goal with
  | Hb : outcome_bind (column indices it 11) _ = Return _ |- _ =>
      repeat bind_inv Hb
  end.
  match goal with
  | Hc : column indices it 14 = Return _ |- _ =>
      unfold column in Hc; rewrite (at_out_of_range indices 14) in Hc by lia;
      discriminate Hc
  end.
Qed.

Lemma getIndices_length `{External} (header titles : list string) :
  (getIndices header titles []).1 = true ->
  length (getIndices header titles []).2.2 = length titles.
Proof.
  unfold getIndices.
  destruct (getIndices_loop (trimString <$> header) (trimString <$> titles) [])
    as [found indices] eqn:Hloop. simpl. intros ->.
  apply getIndices_loop_length in Hloop. rewrite Hloop, length_fmap. reflexivity.
Qed.

(** X2. With fourteen groundtruth header titles (bias and no velocity) the
    parser cannot come to the end of a file that has a data row: the vector
    of indices has fourteen entries, and the bias columns are read through
    [groundtruth_indices.at(11)] to [groundtruth_indices.at(16)]. *)
Theorem parseAndCheckGt_14_titles `{External}
    (header : list string) (it : list fp) (data : list (list fp))
    (self self' : dataParser) :
  length (groundtruth_header_titles_ self) = 14 ->
  parseAndCheckGt true header (it :: data) self <> (Return tt, self').
Proof.
  intros Hlen. unfold parseAndCheckGt. unfold method_bind at 1.
  rewrite Hlen.
  change (groundtruth_flags 14) with (@Return (bool * bool) (false, true)).
  cbv beta iota. simpl for_each. unfold method_bind, modify, method_of.
  pose proof (getIndices_length header (groundtruth_header_titles_ self)) as Hidx.
  destruct (getIndices header (groundtruth_header_titles_ self) [])
    as [found [[header' titles] indices]]. simpl in Hidx.
  destruct found; simpl; [|discriminate].
  destruct (read_groundtruth false true indices it) as [gt|e] eqn:Hread.
  - exfalso. apply (read_groundtruth_14 false indices it) with (gt := gt);
      [|exact Hread].
    rewrite Hidx by reflexivity. exact Hlen.
  - discriminate.
Qed.

(** X3. A call of [consumeSensorReadingAt] that returns takes exactly one
    reading out of the IMU and image data together; a call that throws
    leaves the state as it was; the groundtruth data is never touched. *)
Theorem consumeSensorReadingAt_count (timestamp : fp) (self : dataParser) :
  let '(result, self') := consumeSensorReadingAt timestamp self in
  groundtruth_data_ self' = groundtruth_data_ self /\
  match result with
  | Return _ =>
      S (length (imu_data_ self') + length (image_data_ self'))
      = length (imu_data_ self) + length (image_data_ self)
  | Throw _ => self' = self
  end.
Proof.
  unfold consumeSensorReadingAt.
  destruct (find_if _ (imu_data_ self)) as [[i imu]|] eqn:Himu.
  - apply find_if_Some in Himu.
    destruct Himu as (before & after & Hdata & <- & _).
    split; [reflexivity|]. simpl. rewrite Hdata, erase_middle, !length_app.
    simpl. lia.
  - destruct (find_if _ (image_data_ self)) as [[i cam]|] eqn:Hcam.
    + apply find_if_Some in Hcam.
      destruct Hcam as (before & after & Hdata & <- & _).
      split; [reflexivity|]. simpl. rewrite Hdata, erase_middle, !length_app.
      simpl. lia.
    + split; reflexivity.
Qed.

(** X4. With a number of groundtruth header titles other than 17, 14, 11 and
    8, [parseAndCheckGt] throws before it reads anything, and the state is
    the one before. *)
Theorem parseAndCheckGt_wrong_titles `{External}
    (good : bool) (header : list string) (data : list (list fp)) (self : dataParser) :
  let titles := length (groundtruth_header_titles_ self) in
  titles <> 17 -> titles <> 14 -> titles <> 11 -> titles <> 8 ->
  parseAndCheckGt good header data self
  = (Throw (runtime_error Wrong_number_of_groundtruth_header_titles), self).
Proof.
  intros titles H17 H14 H11 H8. unfold parseAndCheckGt, method_bind.
  fold titles.
  assert (Hflags : groundtruth_flags titles
                   = Throw (runtime_error Wrong_number_of_groundtruth_header_titles)).
  { unfold groundtruth_flags.
    repeat match goal with
    | |- context [Nat.eqb ?a ?b] =>
        destruct (Nat.eqb_spec a b) as [Heq|_]; [contradiction|]
    end.
    reflexivity. }
  now rewrite Hflags.
Qed.

Lemma parseAndCheckGt_14_titles_witness :
  parseAndCheckGt (H := simple_External) true example_groundtruth_header
    [example_groundtruth_row] example_parser
  <> (Return tt, example_parser).
Proof.
  apply (parseAndCheckGt_14_titles (H := simple_External)
           example_groundtruth_header example_groundtruth_row []
           example_parser example_parser).
  reflexivity.
Defined.

(** What the call does there: the bias columns end at [groundtruth_indices.at(16)]
    and the vector of indices has fourteen entries. *)
Example parseAndCheckGt_14_titles_example :
  fst (parseAndCheckGt (H := simple_External) true example_groundtruth_header
         [example_groundtruth_row] example_parser)
  = Throw out_of_range.
Proof. vm_compute. reflexivity. Qed.

Lemma parseAndCheckGt_wrong_titles_witness :
  parseAndCheckGt (H := simple_External) true example_groundtruth_header
    [example_groundtruth_row]
    (set_groundtruth_header_titles_ ["t"; "q_x"] example_parser)
  = (Throw (runtime_error Wrong_number_of_groundtruth_header_titles),
     set_groundtruth_header_titles_ ["t"; "q_x"] example_parser).
Proof.
  apply (parseAndCheckGt_wrong_titles (H := simple_External) true
           example_groundtruth_header [example_groundtruth_row]
           (set_groundtruth_header_titles_ ["t"; "q_x"] example_parser));
    simpl; lia.
Defined.

(** X5. What [consumeSensorReadingAt] returns was stored, under a timestamp
    [==] to the one asked for, and the only exception it throws is the
    runtime error. *)
Theorem consumeSensorReadingAt_returns_stored (timestamp : fp) (self : dataParser) :
  match fst (consumeSensorReadingAt timestamp self) with
  | Return (inl imu) =>
      imu ∈ imu_data_ self /\ fp_eq (imu_timestamp_ imu) timestamp = true
  | Return (inr cam) =>
      cam ∈ image_data_ self /\ fp_eq (cam_timestamp_ cam) timestamp = true
  | Throw e =>
      e = runtime_error (No_sensor_reading_found_at_timestamp timestamp)
  end.
Proof.
  unfold consumeSensorReadingAt.
  destruct (find_if _ (imu_data_ self)) as [[i imu]|] eqn:Himu.
  - apply find_if_Some in Himu.
    destruct Himu as (before & after & Hdata & _ & _ & Hat). simpl.
    split; [|exact Hat]. rewrite Hdata. set_solver.
  - destruct (find_if _ (image_data_ self)) as [[i cam]|] eqn:Hcam.
    + apply find_if_Some in Hcam.
      destruct Hcam as (before & after & Hdata & _ & _ & Hat). simpl.
      split; [|exact Hat]. rewrite Hdata. set_solver.
    + reflexivity.
Qed.

(** X6. What [getCloserGroundtruthAt] returns is a stored record, and the only
    exception it throws is the runtime error. *)
Theorem getCloserGroundtruthAt_returns_stored (timestamp : fp) (self : dataParser) :
  match getCloserGroundtruthAt timestamp self with
  | Return gt => gt ∈ groundtruth_data_ self
  | Throw e => e = runtime_error (No_groundtruth_data_found_at_timestamp timestamp)
  end.
Proof.
  unfold getCloserGroundtruthAt.
  destruct (find_if _ (groundtruth_data_ self)) as [[i gt]|] eqn:Hgt;
    [|reflexivity].
  apply find_if_Some in Hgt.
  destruct Hgt as (before & after & Hdata & _ & _ & _).
  assert (Hin : gt ∈ groundtruth_data_ self) by (rewrite Hdata; set_solver).
  destruct i as [|j]; [exact Hin|].
  destruct (groundtruth_data_ self !! j) as [prev|] eqn:Hprev; [|exact Hin].
  destruct (fp_gt _ _); [|exact Hin].
  eapply list_elem_of_lookup_2. exact Hprev.
Qed.

End DataParserFacts.

(** * Facts on the action *)

Module SymmetryFacts.
Import Symmetry.

Local Open Scope R_scope.

(** ** The action *)

(** C7. The feature-anchor mapping of [phi(X, xi)] has the feature
    identifiers of the mapping of [xi], no more and no fewer, and the anchor
    of each is the anchor of [xi] transformed. *)
Theorem phi_features_keys `{Unspecified} (X : MSCEqFState) (xi : SystemState) :
  dom (features (phi X xi)) = dom (features xi) /\
  forall id : nat,
    features (phi X xi) !! id
    = (fun f => vadd (transform_point (pose_block X) f)
                     (default Vector3_Zero (anchor_block X !! id)))
        <$> features xi !! id.
Proof.
  assert (Hlookup : forall id : nat,
             features (phi X xi) !! id
             = (fun f => vadd (transform_point (pose_block X) f)
                              (default Vector3_Zero (anchor_block X !! id)))
                 <$> features xi !! id).
  { intros id. unfold phi; simpl. rewrite map_lookup_imap.
    destruct (features xi !! id); reflexivity. }
  split; [|exact Hlookup].
  apply set_eq. intros id. rewrite !elem_of_dom, Hlookup.
  apply fmap_is_Some.
Qed.

(** The example state under the example group element: its two features
    keep their identifiers, and no third one appears. *)
Example phi_example_feature `{Unspecified} :
  features (phi example_group_element example_state) !! 7%nat
  = Some (mkVector3 2 1 (-2))
  /\ features (phi example_group_element example_state) !! 9%nat
     = Some (mkVector3 0 2 (-4))
  /\ features (phi example_group_element example_state) !! 8%nat = None.
Proof.
  unfold phi, example_group_element, example_state; simpl.
  rewrite !map_lookup_imap.
  repeat split.
  - simplify_map_eq. unfold transform_point, rotate, vadd; simpl.
    do 2 f_equal; ring.
  - simplify_map_eq. unfold transform_point, rotate, vadd; simpl.
    do 2 f_equal; ring.
Qed.

End SymmetryFacts.

(** * Facts on replaying the readings *)

Module ReplayFacts.
Import SpecFloat FloatAxioms.
Import DataParser DataParserFacts Replay.

(** ** [==] on binary64 *)

Lemma SFcompare_Eq (a b : spec_float) :
  SFcompare a b = Some Eq ->
  (exists s1 s2, a = S754_zero s1 /\ b = S754_zero s2) \/ (a = b /\ a <> S754_nan).
Proof.
  destruct a as [s1|s1| |s1 m1 e1], b as [s2|s2| |s2 m2 e2]; simpl;
    try discriminate; try (destruct s1; discriminate);
    try (destruct s2; discriminate).
  - left. eauto.
  - destruct s1, s2; try discriminate; intros _; right; split; congruence.
  - intros H. right.
    change (Pos.compare_cont Eq m1 m2) with (m1 ?= m2)%positive in H.
    assert (s1 = s2 /\ e1 = e2 /\ m1 = m2) as (-> & -> & ->).
    { destruct s1, s2; try discriminate;
        destruct (Z.compare_spec e1 e2) as [->| |]; try discriminate;
        injection H as H;
        (split; [reflexivity|]; split; [reflexivity|]);
        apply Pos.compare_eq;
        destruct (m1 ?= m2)%positive; simpl in *; congruence. }
    split; [reflexivity | discriminate].
Qed.

Lemma SFeqb_true (a b : spec_float) :
  SFeqb a b = true <->
  (exists s1 s2, a = S754_zero s1 /\ b = S754_zero s2) \/ (a = b /\ a <> S754_nan).
Proof.
  unfold SFeqb. split.
  - destruct (SFcompare a b) as [[]|] eqn:H; try discriminate.
    intros _. now apply SFcompare_Eq.
  - intros [(s1 & s2 & -> & ->)|[<- Hnan]]; [reflexivity|].
    destruct a as [s|s| |s m e]; simpl; try reflexivity.
    + destruct s; reflexivity.
    + contradiction.
    + rewrite Z.compare_refl.
      change (Pos.compare_cont Eq m m) with (m ?= m)%positive.
      rewrite Pos.compare_refl. destruct s; reflexivity.
Qed.

(** [==] on [fp] is symmetric and transitive; it is reflexive on every value
    but the NaNs. *)
Lemma fp_eq_sym (a b : fp) : fp_eq a b = true -> fp_eq b a = true.
Proof.
  unfold fp_eq. rewrite !FloatAxioms.eqb_spec, !SFeqb_true.
  intros [(s1 & s2 & Ha & Hb)|[Hab Hnan]]; [left; eauto|].
  right. split; congruence.
Qed.

Lemma fp_eq_trans (a b c : fp) :
  fp_eq a b = true -> fp_eq b c = true -> fp_eq a c = true.
Proof.
  unfold fp_eq. rewrite !FloatAxioms.eqb_spec, !SFeqb_true.
  intros [(s1 & s2 & Ha & Hb)|[Hab Hnan]] [(s3 & s4 & Hb' & Hc)|[Hbc Hnan']].
  - left; eauto.
  - left. rewrite <- Hbc. eauto.
  - left. rewrite Hab. eauto.
  - right. split; congruence.
Qed.

(** ** Queries and stored timestamps *)

Lemma answers_refl (R Q : list fp) :
  Forall (fun t => fp_eq t t = true) R -> Q ≡ₚ R -> answers Q R.
Proof.
  intros Hnan Hperm. exists R. split; [exact Hperm|]. clear Hperm.
  induction Hnan; constructor; assumption.
Qed.

Lemma answers_nil_l (R : list fp) : answers [] R -> R = [].
Proof.
  intros (l & Hperm & Hall). apply Permutation_nil_l in Hperm. subst l.
  now inversion Hall.
Qed.

Lemma answers_head (t : fp) (Q R : list fp) :
  answers (t :: Q) R -> exists r, r ∈ R /\ fp_eq r t = true.
Proof.
  intros (l & Hperm & Hall).
  assert (Hin : t ∈ l) by (rewrite <- Hperm; left).
  apply list_elem_of_lookup in Hin. destruct Hin as [i Hi].
  destruct (Forall2_lookup_l _ _ _ _ _ Hall Hi) as (r & Hr & Heq).
  exists r. split; [|exact Heq]. eapply list_elem_of_lookup_2. exact Hr.
Qed.

Lemma answers_remove (t r : fp) (Q R1 R2 : list fp) :
  answers (t :: Q) (R1 ++ r :: R2) -> fp_eq r t = true -> answers Q (R1 ++ R2).
Proof.
  intros (l & Hperm & Hall) Hrt.
  apply Forall2_app_inv_r in Hall. destruct Hall as (l1 & l2' & Hall1 & Hall2 & ->).
  apply Forall2_cons_inv_r in Hall2. destruct Hall2 as (x & l2 & Hrx & Hall2 & ->).
  assert (Hin : t ∈ l1 ++ x :: l2) by (rewrite <- Hperm; left).
  apply elem_of_app in Hin. rewrite elem_of_cons in Hin.
  destruct Hin as [Hin|[->|Hin]].
  - apply list_elem_of_split in Hin. destruct Hin as (a & b & ->).
    apply Forall2_app_inv_l in Hall1.
    destruct Hall1 as (Ra & Rb' & Ha & Hb & ->).
    apply Forall2_cons_inv_l in Hb. destruct Hb as (rt & Rb & Hrt' & Hb & ->).
    exists (a ++ x :: b ++ l2). split.
    + rewrite <- app_assoc in Hperm. simpl in Hperm.
      apply Permutation_cons_app_inv in Hperm. rewrite Hperm.
      apply Permutation_app_head. symmetry. apply Permutation_middle.
    + rewrite <- !app_assoc. simpl.
      apply Forall2_app; [exact Ha|]. constructor.
      * apply fp_eq_sym in Hrx. apply fp_eq_sym.
        eapply fp_eq_trans; [exact Hrx|].
        eapply fp_eq_trans; [exact Hrt|]. now apply fp_eq_sym.
      * apply Forall2_app; assumption.
  - exists (l1 ++ l2). split.
    + now apply Permutation_cons_app_inv in Hperm.
    + apply Forall2_app; assumption.
  - apply list_elem_of_split in Hin. destruct Hin as (a & b & ->).
    apply Forall2_app_inv_l in Hall2.
    destruct Hall2 as (Ra & Rb' & Ha & Hb & ->).
    apply Forall2_cons_inv_l in Hb. destruct Hb as (rt & Rb & Hrt' & Hb & ->).
    exists (l1 ++ a ++ x :: b). split.
    + replace (l1 ++ x :: a ++ t :: b) with ((l1 ++ x :: a) ++ t :: b) in Hperm
        by (rewrite <- app_assoc; reflexivity).
      apply Permutation_cons_app_inv in Hperm. rewrite Hperm.
      rewrite <- app_assoc. apply Permutation_app_head.
      simpl. apply Permutation_middle.
    + apply Forall2_app; [exact Hall1|].
      apply Forall2_app; [exact Ha|]. constructor; [|exact Hb].
      apply fp_eq_sym in Hrx. apply fp_eq_sym.
      eapply fp_eq_trans; [exact Hrx|].
      eapply fp_eq_trans; [exact Hrt|]. now apply fp_eq_sym.
Qed.

Lemma consume_all_answers (Q : list fp) (self : dataParser) :
  answers Q (stored_timestamps self) ->
  exists readings,
    consume_all Q self = (Return readings, emptied self) /\
    readings ≡ₚ (inl <$> imu_data_ self) ++ (inr <$> image_data_ self) /\
    Forall2 (fun timestamp data =>
               match data with
               | inl imu => fp_eq (imu_timestamp_ imu) timestamp = true
               | inr cam => fp_eq (cam_timestamp_ cam) timestamp = true
               end) Q readings.
Proof.
  revert self. induction Q as [|t Q IH]; intros self HQ.
  - apply answers_nil_l in HQ. unfold stored_timestamps in HQ.
    apply app_eq_nil in HQ. destruct HQ as [Himu Hcam].
    apply fmap_nil_inv in Himu, Hcam.
    exists []. destruct self; simpl in *; subst.
    repeat split; constructor.
  - simpl. unfold consumeSensorReadingAt.
    destruct (find_if (fun imu => fp_eq (imu_timestamp_ imu) t) (imu_data_ self))
      as [[i imu]|] eqn:Himu.
    + apply find_if_Some in Himu.
      destruct Himu as (before & after & Hdata & <- & _ & Hat).
      rewrite Hdata, erase_middle.
      destruct (IH (set_imu_data_ (before ++ after) self)) as (readings & -> & Hperm & Hall).
      { unfold stored_timestamps in *. simpl. rewrite Hdata in HQ.
        rewrite fmap_app in *. rewrite fmap_cons in HQ.
        rewrite <- app_assoc in *. simpl in HQ.
        eapply answers_remove; [exact HQ | exact Hat]. }
      exists (inl imu :: readings). split; [reflexivity|]. split.
      * rewrite Hperm. simpl. rewrite !fmap_app, fmap_cons.
        rewrite <- !app_assoc. simpl. apply Permutation_middle.
      * constructor; assumption.
    + destruct (find_if (fun cam => fp_eq (cam_timestamp_ cam) t) (image_data_ self))
        as [[i cam]|] eqn:Hcam.
      * apply find_if_Some in Hcam.
        destruct Hcam as (before & after & Hdata & <- & _ & Hat).
        rewrite Hdata, erase_middle.
        destruct (IH (set_image_data_ (before ++ after) self))
          as (readings & -> & Hperm & Hall).
        { unfold stored_timestamps in *. simpl. rewrite Hdata in HQ.
          rewrite fmap_app in *. rewrite fmap_cons in HQ.
          rewrite app_assoc in *.
          eapply answers_remove; [exact HQ | exact Hat]. }
        exists (inr cam :: readings). split; [reflexivity|]. split.
        -- rewrite Hperm. simpl. rewrite !fmap_app, fmap_cons.
           rewrite !app_assoc. apply Permutation_middle.
        -- constructor; assumption.
      * exfalso. apply find_if_None in Himu. apply find_if_None in Hcam.
        destruct (answers_head _ _ _ HQ) as (r & Hin & Hr).
        unfold stored_timestamps in Hin. apply elem_of_app in Hin.
        rewrite Forall_forall in Himu. rewrite Forall_forall in Hcam.
        destruct Hin as [Hin|Hin]; apply list_elem_of_fmap in Hin;
          destruct Hin as (x & -> & Hx).
        -- specialize (Himu x Hx). simpl in Himu. congruence.
        -- specialize (Hcam x Hx). simpl in Hcam. congruence.
Qed.

(** X8. Replaying consumes everything: when no stored timestamp is a NaN
    (and [std::sort] permutes what it is given), the calls of
    [consumeSensorReadingAt] on the timestamps of [getSensorsTimestamps], in
    their order, all return; each returns a reading whose timestamp [==] the
    one asked for, the readings returned are the stored ones, each once, and
    the IMU and image data are empty at the end. *)
Theorem replay_consumes_everything `{External} (self : dataParser) :
  (forall (A : Type) (lt : A -> A -> bool) (v : list A), std_sort A lt v ≡ₚ v) ->
  Forall (fun t => fp_eq t t = true) (stored_timestamps self) ->
  exists readings,
    consume_all (getSensorsTimestamps self) self = (Return readings, emptied self) /\
    readings ≡ₚ (inl <$> imu_data_ self) ++ (inr <$> image_data_ self) /\
    Forall2 (fun timestamp data =>
               match data with
               | inl imu => fp_eq (imu_timestamp_ imu) timestamp = true
               | inr cam => fp_eq (cam_timestamp_ cam) timestamp = true
               end) (getSensorsTimestamps self) readings.
Proof.
  intros Hsort Hnan. apply consume_all_answers.
  apply answers_refl; [exact Hnan|]. unfold getSensorsTimestamps. apply Hsort.
Qed.

Lemma replay_consumes_everything_witness :
  exists readings,
    consume_all (getSensorsTimestamps (H := simple_External) example_parser)
      example_parser
    = (Return readings, emptied example_parser) /\
    readings ≡ₚ (inl <$> imu_data_ example_parser) ++ (inr <$> image_data_ example_parser) /\
    Forall2 (fun timestamp data =>
               match data with
               | inl imu => fp_eq (imu_timestamp_ imu) timestamp = true
               | inr cam => fp_eq (cam_timestamp_ cam) timestamp = true
               end)
            (getSensorsTimestamps (H := simple_External) example_parser) readings.
Proof.
  apply (replay_consumes_everything (H := simple_External) example_parser
           insertion_sort_Permutation).
  repeat constructor.
Defined.

(** The example: two readings stamped 2 in the IMU data and one in the image
    data; the IMU readings go first, in their order. *)
Example replay_example :
  fst (consume_all (getSensorsTimestamps (H := simple_External) example_parser)
         example_parser)
  = Return [inl (example_imu 1 0.25); inl (example_imu 2 0.5);
            inl (example_imu 2 0.75); inr (example_camera 2);
            inr (example_camera 3)]%float.
Proof. vm_compute. reflexivity. Qed.

(** ** A stored NaN *)

Lemma consumeSensorReadingAt_Return_eq (timestamp : fp) (self self' : dataParser)
    (data : Imu + Camera) :
  consumeSensorReadingAt timestamp self = (Return data, self') ->
  fp_eq timestamp timestamp = true.
Proof.
  unfold consumeSensorReadingAt.
  destruct (find_if _ (imu_data_ self)) as [[i imu]|] eqn:Himu.
  - intros _. apply find_if_Some in Himu.
    destruct Himu as (_ & _ & _ & _ & _ & Hat).
    eapply fp_eq_trans; [apply fp_eq_sym|]; exact Hat.
  - destruct (find_if _ (image_data_ self)) as [[i cam]|] eqn:Hcam; [|discriminate].
    intros _. apply find_if_Some in Hcam.
    destruct Hcam as (_ & _ & _ & _ & _ & Hat).
    eapply fp_eq_trans; [apply fp_eq_sym|]; exact Hat.
Qed.

Lemma consumeSensorReadingAt_Throw (timestamp : fp) (self self' : dataParser)
    (e : exception) :
  consumeSensorReadingAt timestamp self = (Throw e, self') ->
  e = runtime_error (No_sensor_reading_found_at_timestamp timestamp).
Proof.
  unfold consumeSensorReadingAt.
  destruct (find_if _ (imu_data_ self)) as [[i imu]|]; [discriminate|].
  destruct (find_if _ (image_data_ self)) as [[i cam]|]; [discriminate|].
  congruence.
Qed.

Lemma consume_all_nan (Q : list fp) (self : dataParser) :
  Exists (fun t => fp_eq t t = false) Q ->
  exists t self',
    t ∈ Q /\
    consume_all Q self
    = (Throw (runtime_error (No_sensor_reading_found_at_timestamp t)), self').
Proof.
  revert self. induction Q as [|q Q IH]; intros self Hex; [now inversion Hex|].
  simpl. destruct (consumeSensorReadingAt q self) as [[data|e] self1] eqn:Hq.
  - apply consumeSensorReadingAt_Return_eq in Hq.
    apply Exists_cons in Hex. destruct Hex as [Hnan|Hex]; [congruence|].
    destruct (IH self1 Hex) as (t & self' & Hin & ->).
    exists t, self'. split; [now right | reflexivity].
  - apply consumeSensorReadingAt_Throw in Hq. subst e.
    exists q, self1. split; [left | reflexivity].
Qed.

(** X9. A reading stamped NaN breaks the replay: when a stored timestamp is
    a NaN, the calls of [consumeSensorReadingAt] on the timestamps of
    [getSensorsTimestamps] end in the runtime error
    [No sensor reading found at timestamp], for a timestamp that is stored. *)
Theorem replay_stops_at_nan `{External} (self : dataParser) :
  (forall (A : Type) (lt : A -> A -> bool) (v : list A), std_sort A lt v ≡ₚ v) ->
  Exists (fun t => fp_eq t t = false) (stored_timestamps self) ->
  exists t self',
    t ∈ stored_timestamps self /\
    consume_all (getSensorsTimestamps self) self
    = (Throw (runtime_error (No_sensor_reading_found_at_timestamp t)), self').
Proof.
  intros Hsort Hnan.
  assert (Hperm : getSensorsTimestamps self ≡ₚ stored_timestamps self)
    by apply Hsort.
  destruct (consume_all_nan (getSensorsTimestamps self) self) as (t & self' & Hin & Hrun).
  - rewrite Hperm. exact Hnan.
  - exists t, self'. split; [now rewrite <- Hperm | exact Hrun].
Qed.

Lemma replay_stops_at_nan_witness :
  exists t self',
    t ∈ stored_timestamps example_nan_parser /\
    consume_all (getSensorsTimestamps (H := simple_External) example_nan_parser)
      example_nan_parser
    = (Throw (runtime_error (No_sensor_reading_found_at_timestamp t)), self').
Proof.
  apply (replay_stops_at_nan (H := simple_External) example_nan_parser
           insertion_sort_Permutation).
  right. left. reflexivity.
Defined.

End ReplayFacts.

(** * Facts on reading the files *)

Module ReadingFacts.
Import DataParser DataParserFacts Reading.

(** ** Strings *)

Local Arguments String.append !_ _ / : simpl nomatch.

Lemma append_empty_r (s : string) : s +:+ EmptyString = s.
Proof. induction s as [|c s IH]; simpl; [reflexivity | f_equal; exact IH]. Qed.

Lemma append_assoc (s1 s2 s3 : string) : (s1 +:+ s2) +:+ s3 = s1 +:+ (s2 +:+ s3).
Proof. induction s1 as [|c s1 IH]; simpl; [reflexivity | f_equal; exact IH]. Qed.

Lemma append_empty_inv (s1 s2 : string) :
  s1 +:+ s2 = EmptyString -> s1 = EmptyString /\ s2 = EmptyString.
Proof. destruct s1; simpl; [auto | discriminate]. Qed.

(** ** The language of a regular expression, and the matcher *)

Lemma lang_Eps_inv (s : string) : lang Eps s -> s = EmptyString.
Proof. now inversion 1. Qed.

Lemma lang_Chr_inv (class : ascii -> bool) (s : string) :
  lang (Chr class) s -> exists c, s = String c EmptyString /\ class c = true.
Proof. inversion 1; subst; eauto. Qed.

Lemma lang_Alt_inv (r1 r2 : regex) (s : string) :
  lang (Alt r1 r2) s -> lang r1 s \/ lang r2 s.
Proof. inversion 1; subst; auto. Qed.

Lemma lang_Seq_inv (r1 r2 : regex) (s : string) :
  lang (Seq r1 r2) s -> exists s1 s2, s = s1 +:+ s2 /\ lang r1 s1 /\ lang r2 s2.
Proof. inversion 1; subst; eauto. Qed.

Lemma nullable_lang (r : regex) : nullable r = true <-> lang r EmptyString.
Proof.
  induction r as [| |class|r1 IH1 r2 IH2|r1 IH1 r2 IH2|r IH]; simpl.
  - split; [discriminate | inversion 1].
  - split; [constructor | reflexivity].
  - split; [discriminate | inversion 1].
  - rewrite orb_true_iff, IH1, IH2. split.
    + intros [H|H]; [now apply lang_Alt_l | now apply lang_Alt_r].
    + apply lang_Alt_inv.
  - rewrite andb_true_iff, IH1, IH2. split.
    + intros [H1 H2]. exact (lang_Seq r1 r2 EmptyString EmptyString H1 H2).
    + intros H. apply lang_Seq_inv in H. destruct H as (s1 & s2 & Heq & H1 & H2).
      symmetry in Heq. apply append_empty_inv in Heq. destruct Heq as [-> ->]. auto.
  - split; [constructor | reflexivity].
Qed.

Lemma lang_Star_String (r : regex) (c : ascii) (s : string) :
  lang (Star r) (String c s) ->
  exists s1 s2, s = s1 +:+ s2 /\ lang r (String c s1) /\ lang (Star r) s2.
Proof.
  intros H. remember (Star r) as r' eqn:Hr. remember (String c s) as t eqn:Ht.
  revert Hr Ht. induction H as [| | | | | |r0 s1 s2 H1 _ H2 IH2]; try discriminate.
  intros [= ->] Ht. destruct s1 as [|c1 s1]; simpl in Ht.
  - apply IH2; [reflexivity | exact Ht].
  - injection Ht as -> <-. eauto.
Qed.

Lemma derive_lang (c : ascii) (r : regex) (s : string) :
  lang (derive c r) s <-> lang r (String c s).
Proof.
  revert s. induction r as [| |class|r1 IH1 r2 IH2|r1 IH1 r2 IH2|r IH];
    intros s; simpl.
  - split; inversion 1.
  - split; inversion 1.
  - destruct (class c) eqn:Hc.
    + split.
      * intros H. apply lang_Eps_inv in H. subst. now constructor.
      * intros H. apply lang_Chr_inv in H. destruct H as (c' & [= _ ->] & _).
        constructor.
    + split; [inversion 1|].
      intros H. apply lang_Chr_inv in H. destruct H as (c' & [= <- _] & H).
      congruence.
  - split; intros H; apply lang_Alt_inv in H; destruct H as [H|H];
      [apply lang_Alt_l; now apply IH1 | apply lang_Alt_r; now apply IH2
      |apply lang_Alt_l; now apply IH1 | apply lang_Alt_r; now apply IH2].
  - assert (Hseq : lang (Seq (derive c r1) r2) s -> lang (Seq r1 r2) (String c s)).
    { intros H. apply lang_Seq_inv in H. destruct H as (s1 & s2 & -> & H1 & H2).
      apply IH1 in H1. exact (lang_Seq r1 r2 (String c s1) s2 H1 H2). }
    assert (Hnull : nullable r1 = true -> lang (derive c r2) s ->
                    lang (Seq r1 r2) (String c s)).
    { intros Hn H. apply nullable_lang in Hn. apply IH2 in H.
      exact (lang_Seq r1 r2 EmptyString (String c s) Hn H). }
    assert (Hback : lang (Seq r1 r2) (String c s) ->
                    lang (Seq (derive c r1) r2) s \/
                    (nullable r1 = true /\ lang (derive c r2) s)).
    { intros H. apply lang_Seq_inv in H. destruct H as (s1 & s2 & Heq & H1 & H2).
      destruct s1 as [|c1 s1]; simpl in Heq.
      - right. subst s2. split; [now apply nullable_lang | now apply IH2].
      - injection Heq as <- ->. left. apply lang_Seq; [now apply IH1 | exact H2]. }
    destruct (nullable r1) eqn:Hn; split.
    + intros H. apply lang_Alt_inv in H. destruct H; auto.
    + intros H. destruct (Hback H) as [H'|[_ H']];
        [now apply lang_Alt_l | now apply lang_Alt_r].
    + exact Hseq.
    + intros H. destruct (Hback H) as [H'|[Hn' _]]; [exact H' | discriminate].
  - split.
    + intros H. apply lang_Seq_inv in H. destruct H as (s1 & s2 & -> & H1 & H2).
      apply IH in H1. exact (lang_Star_cons r (String c s1) s2 H1 H2).
    + intros H. apply lang_Star_String in H.
      destruct H as (s1 & s2 & -> & H1 & H2).
      apply lang_Seq; [now apply IH | exact H2].
Qed.

(** [regex_match] decides the language of the expression. *)
Lemma regex_match_lang (s : string) (r : regex) :
  regex_match s r = true <-> lang r s.
Proof.
  revert r. induction s as [|c s IH]; intros r; simpl.
  - apply nullable_lang.
  - rewrite IH. apply derive_lang.
Qed.

(** ** The fields that pass for numbers *)

Lemma chars_append (s1 s2 : string) : chars (s1 +:+ s2) = chars s1 ++ chars s2.
Proof.
  unfold chars. induction s1 as [|c s1 IH]; simpl; [reflexivity | f_equal; exact IH].
Qed.

Lemma lang_classes_within (P : ascii -> bool) (r : regex) (s : string) :
  classes_within P r -> lang r s -> Forall (fun c => P c = true) (chars s).
Proof.
  intros Hr H. induction H as [|class c Hc|r1 r2 s H IH|r1 r2 s H IH
                               |r1 r2 s1 s2 H1 IH1 H2 IH2| |r s1 s2 H1 IH1 H2 IH2];
    simpl in Hr.
  - constructor.
  - repeat constructor. now apply Hr.
  - apply IH, Hr.
  - apply IH, Hr.
  - rewrite chars_append. apply Forall_app. split; [apply IH1 | apply IH2]; apply Hr.
  - constructor.
  - rewrite chars_append. apply Forall_app. split; [apply IH1 | apply IH2]; exact Hr.
Qed.

Lemma lang_Plus_digit (s : string) :
  lang (Plus (Chr digit)) s -> Exists (fun c => digit c = true) (chars s).
Proof.
  intros H. apply lang_Seq_inv in H. destruct H as (s1 & s2 & -> & H1 & _).
  apply lang_Chr_inv in H1. destruct H1 as (c & -> & Hc).
  simpl. now constructor.
Qed.

Lemma one_of_numeral (set : string) :
  (forall c, one_of set c = true -> one_of "+-.eE" c = true) ->
  forall c, one_of set c = true -> numeral_char c = true.
Proof. intros Hset c Hc. unfold numeral_char. rewrite (Hset c Hc). apply orb_true_r. Qed.

Lemma one_of_cons (c0 : ascii) (set : string) (c : ascii) :
  one_of (String c0 set) c = Ascii.eqb c c0 || one_of set c.
Proof. reflexivity. Qed.

Lemma contains_chars (needle s : string) :
  contains needle s = true -> Forall (fun c => c ∈ chars s) (chars needle).
Proof.
  assert (Hprefix : forall n t, String.prefix n t = true ->
                                Forall (fun c => c ∈ chars t) (chars n)).
  { induction n as [|c n IH]; intros t Ht; [constructor|].
    destruct t as [|d t]; simpl in Ht; [discriminate|].
    destruct (ascii_dec c d) as [->|]; [|discriminate].
    simpl. constructor; [left|].
    eapply Forall_impl; [exact (IH t Ht)|]. intros x Hx. now right. }
  assert (Hunfold : forall t, contains needle t
                               = String.prefix needle t
                                 || match t with
                                    | EmptyString => false
                                    | String _ t' => contains needle t'
                                    end)
    by (intros []; reflexivity).
  induction s as [|d s IH]; rewrite Hunfold, orb_true_iff.
  - intros [H|H]; [exact (Hprefix _ _ H) | discriminate].
  - intros [H|H]; [exact (Hprefix _ _ H)|].
    eapply Forall_impl; [exact (IH H)|]. intros x Hx. now right.
Qed.

Lemma number_regex_cases (s : string) :
  regex_match s number_regex = true ->
  s = "nan"
  \/ (Forall (fun c => numeral_char c = true) (chars s)
      /\ Exists (fun c => digit c = true) (chars s)).
Proof.
  intros H. apply regex_match_lang in H. apply lang_Alt_inv in H.
  destruct H as [H|H].
  - right. split.
    + eapply lang_classes_within; [|exact H].
      assert (Hd : forall c, digit c = true -> numeral_char c = true)
        by (intros c Hc; unfold numeral_char; now rewrite Hc).
      assert (Hs : forall c, one_of "+-" c = true -> numeral_char c = true).
      { apply one_of_numeral. intros c. rewrite !one_of_cons.
        rewrite !orb_true_iff. tauto. }
      assert (Hp : forall c, one_of "." c = true -> numeral_char c = true).
      { apply one_of_numeral. intros c. rewrite !one_of_cons.
        rewrite !orb_true_iff. tauto. }
      assert (He : forall c, one_of "eE" c = true -> numeral_char c = true).
      { apply one_of_numeral. intros c. rewrite !one_of_cons.
        rewrite !orb_true_iff. tauto. }
      simpl. tauto.
    + apply lang_Seq_inv in H. destruct H as (sign & rest & -> & _ & H).
      apply lang_Seq_inv in H. destruct H as (mantissa & exponent & -> & H & _).
      rewrite !chars_append. apply Exists_app. right. apply Exists_app. left.
      apply lang_Alt_inv in H. destruct H as [H|H];
        [apply lang_Alt_inv in H; destruct H as [H|H]|].
      * apply lang_Seq_inv in H. destruct H as (s1 & s2 & -> & _ & H).
        apply lang_Seq_inv in H. destruct H as (s3 & s4 & -> & _ & H).
        rewrite !chars_append. apply Exists_app. right. apply Exists_app. right.
        now apply lang_Plus_digit.
      * apply lang_Seq_inv in H. destruct H as (s1 & s2 & -> & H & _).
        rewrite !chars_append. apply Exists_app. left. now apply lang_Plus_digit.
      * now apply lang_Plus_digit.
  - left. simpl in H.
    repeat (apply lang_Seq_inv in H;
            let s1 := fresh "s" in let H1 := fresh "H" in
            destruct H as (s1 & ? & -> & H1 & H);
            apply lang_Chr_inv in H1; destruct H1 as (? & -> & H1);
            apply Ascii.eqb_eq in H1; subst).
    apply lang_Eps_inv in H. subst. reflexivity.
Qed.

Lemma numeral_without_nan (s : string) :
  Forall (fun c => numeral_char c = true) (chars s) -> contains "nan" s = false.
Proof.
  intros Hall. destruct (contains "nan" s) eqn:Hnan; [|reflexivity].
  apply contains_chars in Hnan. inversion Hnan as [|? ? Hn _]; subst.
  rewrite Forall_forall in Hall. specialize (Hall _ Hn). discriminate.
Qed.

Lemma number_regex_nan (s : string) :
  regex_match s number_regex = true -> s = "nan" \/ contains "nan" s = false.
Proof.
  intros H. destruct (number_regex_cases s H) as [->|[Hall _]]; [now left|].
  right. now apply numeral_without_nan.
Qed.

(** X10. A field that [number_regex] lets pass is the word [nan] or is made
    of digits, signs, dots and the letters [e] and [E] only, with at least
    one digit, and then the word [nan] does not occur in it: blanks, [inf],
    hexadecimal digits or an empty field do not pass. *)
Theorem number_regex_fields (s : string) :
  regex_match s number_regex = true ->
  s = "nan"
  \/ (Forall (fun c => numeral_char c = true) (chars s)
      /\ Exists (fun c => digit c = true) (chars s)
      /\ contains "nan" s = false).
Proof.
  intros H. destruct (number_regex_cases s H) as [->|[Hall Hdigit]].
  - left. reflexivity.
  - right. split; [exact Hall|]. split; [exact Hdigit|].
    apply numeral_without_nan. exact Hall.
Qed.

Lemma number_regex_fields_witness :
  "-12.5e3" = "nan" \/
  (Forall (fun c => numeral_char c = true) (chars "-12.5e3")
   /\ Exists (fun c => digit c = true) (chars "-12.5e3")
   /\ contains "nan" "-12.5e3" = false).
Proof. apply (number_regex_fields "-12.5e3"). vm_compute. reflexivity. Defined.

(** ** What [parseLine] returns *)

Lemma any_char_tolower (c : ascii) : any_char (tolower c) = any_char c.
Proof. destruct c as [[] [] [] [] [] [] [] []]; reflexivity. Qed.

Lemma tolower_idempotent (c : ascii) : tolower (tolower c) = tolower c.
Proof. destruct c as [[] [] [] [] [] [] [] []]; reflexivity. Qed.

Lemma chars_lowercase (s : string) : chars (lowercase s) = tolower <$> chars s.
Proof.
  unfold chars. induction s as [|c s IH]; simpl; [reflexivity | f_equal; exact IH].
Qed.

Lemma lowercase_idempotent (s : string) : lowercase (lowercase s) = lowercase s.
Proof.
  induction s as [|c s IH]; simpl; [reflexivity|].
  now rewrite tolower_idempotent, IH.
Qed.

Lemma Forall_any_char_lowercase (s : string) :
  Forall (fun c => any_char c = true) (chars (lowercase s)) <->
  Forall (fun c => any_char c = true) (chars s).
Proof.
  rewrite chars_lowercase, Forall_fmap. apply Forall_iff. intros c. simpl.
  now rewrite any_char_tolower.
Qed.

Lemma lang_Star_Chr (class : ascii -> bool) (s : string) :
  lang (Star (Chr class)) s <-> Forall (fun c => class c = true) (chars s).
Proof.
  split.
  - apply lang_classes_within. simpl. auto.
  - induction s as [|c s IH]; intros H; [constructor|].
    inversion H as [|? ? Hc Hs]; subst.
    exact (lang_Star_cons (Chr class) (String c EmptyString) s
             (lang_Chr class c Hc) (IH Hs)).
Qed.

Lemma regex_match_any (s : string) :
  regex_match s any_regex = true <-> Forall (fun c => any_char c = true) (chars s).
Proof. rewrite regex_match_lang. apply lang_Star_Chr. Qed.

Lemma prepare_Done (r : regex) (s s' : string) :
  prepare r s = Done s' <->
  regex_match (lowercase (strip_cr s)) r = true /\ s' = lowercase (strip_cr s).
Proof.
  unfold prepare. fold (strip_cr s).
  destruct (regex_match _ r) eqn:Hr.
  - split; [intros [= <-]; auto | intros (_ & ->); reflexivity].
  - split; [discriminate | intros (H & _); discriminate].
Qed.

Lemma parse_fields_Done {T : Type} (convert : string -> result T) (r : regex)
    (fields : list string) (data : list T) :
  parse_fields convert r fields = Done data <->
  Forall2 (fun s t => exists s', prepare r s = Done s' /\ convert s' = Done t)
          (filter (fun s => s <> "#") fields) data.
Proof.
  revert data. induction fields as [|s fields IH]; intros data; simpl.
  - split; [intros [= <-]; constructor | now inversion 1].
  - destruct (String.eqb_spec s "#") as [->|Hs].
    + rewrite filter_cons_False by (intros H; now apply H). apply IH.
    + rewrite filter_cons_True by exact Hs.
      destruct (prepare r s) as [s'|f] eqn:Hprep; simpl.
      * destruct (convert s') as [t|f] eqn:Hconv; simpl.
        -- destruct (parse_fields convert r fields) as [data'|f] eqn:Hrest; simpl.
           ++ split.
              ** intros [= <-]. constructor; [eauto | now apply IH].
              ** inversion 1 as [|? ? ? ? (s'' & Hs'' & Ht) Hall]; subst.
                 rewrite Hprep in Hs''. injection Hs'' as <-.
                 apply IH in Hall. congruence.
           ++ split; [discriminate|].
              inversion 1 as [|? ? ? ? _ Hall]; subst. apply IH in Hall. discriminate.
        -- split; [discriminate|].
           inversion 1 as [|? ? ? ? (s'' & Hs'' & Ht) _]; subst.
           rewrite Hprep in Hs''. injection Hs'' as <-. congruence.
      * split; [discriminate|].
        inversion 1 as [|? ? ? ? (s'' & Hs'' & _) _]; subst.
        rewrite Hprep in Hs''. discriminate.
Qed.

Lemma parse_fields_string_Done (fields data : list string) :
  parse_fields Done any_regex fields = Done data <->
  Forall (fun s => s = "#" \/
                   Forall (fun c => any_char c = true) (chars (strip_cr s)))
         fields
  /\ data = (fun s => lowercase (strip_cr s)) <$> filter (fun s => s <> "#") fields.
Proof.
  rewrite parse_fields_Done.
  revert data. induction fields as [|s fields IH]; intros data.
  - rewrite filter_nil. split.
    + inversion 1. split; [constructor | reflexivity].
    + intros [_ ->]. constructor.
  - destruct (decide (s = "#")) as [->|Hs].
    + rewrite filter_cons_False by (intros H; now apply H).
      rewrite IH, Forall_cons. tauto.
    + rewrite filter_cons_True by exact Hs. rewrite fmap_cons, Forall_cons. split.
      * inversion 1 as [|? t ? data' (s' & Hprep & [= <-]) Hall]; subst.
        apply IH in Hall. destruct Hall as [Hall ->].
        apply prepare_Done in Hprep. destruct Hprep as (Hmatch & ->).
        rewrite regex_match_any, Forall_any_char_lowercase in Hmatch.
        split; [split; [right; assumption | assumption] | reflexivity].
      * intros [[[?|Hchars] Hall] ->]; [contradiction|].
        constructor; [|apply IH; auto].
        exists (lowercase (strip_cr s)). split; [|reflexivity].
        apply prepare_Done. split; [|reflexivity].
        now rewrite regex_match_any, Forall_any_char_lowercase.
Qed.

(** X11. [parseLine] of a line into strings returns exactly when every field
    but the fields [#] holds, its closing carriage return apart, no line
    terminator; it then returns those fields, in their order, without the
    closing carriage return and in lower case. An empty field, on which
    [s.back()] is undefined, is in the model a field like the others (see
    [prepare]): it gives an empty entry. *)
Theorem parseLine_string_Done (delim : ascii) (line : string) (data : list string) :
  parseLine_string delim line = Done data <->
  Forall (fun s => s = "#" \/
                   Forall (fun c => any_char c = true) (chars (strip_cr s)))
         (read_fields delim EmptyString line)
  /\ data = (fun s => lowercase (strip_cr s))
              <$> filter (fun s => s <> "#") (read_fields delim EmptyString line).
Proof.
  unfold parseLine_string.
  exact (parse_fields_string_Done (read_fields delim EmptyString line) data).
Qed.

(** X12. [parseLine] of a line into numbers returns exactly when every field
    but the fields [#] is not empty and, without its closing carriage
    return and in lower case, passes [number_regex] and is the word [nan] or
    is converted by [std::stod] without an exception; the values are then,
    in the order of the fields, a NaN for the word [nan] (so for [NaN] and
    [NAN] too) and what [std::stod] makes of the lowered field otherwise. *)
Theorem parseLine_fp_Done `{External} (delim : ascii) (line : string) (data : list fp) :
  parseLine_fp delim line = Done data <->
  Forall2 (fun s v =>
             s <> EmptyString /\
             regex_match (lowercase (strip_cr s)) number_regex = true /\
             ((lowercase (strip_cr s) = "nan" /\ v = PrimFloat.nan) \/
              (lowercase (strip_cr s) <> "nan" /\
               std_stod (lowercase (strip_cr s)) = Return v)))
          (filter (fun s => s <> "#") (read_fields delim EmptyString line)) data.
Proof.
  unfold parseLine_fp. rewrite parse_fields_Done.
  split; intros Hall; (eapply Forall2_impl; [exact Hall|]); clear Hall; intros s v.
  - intros (s' & Hprep & Hconv). apply prepare_Done in Hprep.
    destruct Hprep as (Hmatch & ->).
    split; [intros ->; discriminate Hmatch|]. split; [exact Hmatch|].
    unfold convert_fp in Hconv.
    destruct (number_regex_nan _ Hmatch) as [Hnan|Hnan]; rewrite Hnan in *.
    + left. simpl in Hconv. split; [reflexivity | congruence].
    + right. split; [intros Heq; rewrite Heq in Hnan; discriminate|].
      destruct (std_stod _); simpl in Hconv; congruence.
  - intros (Hne & Hmatch & Hv). exists (lowercase (strip_cr s)). split.
    + apply prepare_Done. auto.
    + unfold convert_fp. destruct Hv as [[Hnan ->]|[Hnan Hstod]].
      * now rewrite Hnan.
      * destruct (number_regex_nan _ Hmatch) as [?|Hc]; [contradiction|].
        now rewrite Hc, Hstod.
Qed.

(** ** Fields and lines *)

Lemma read_fields_token (delim : ascii) (s token rest : string) :
  delim ∉ chars s ->
  read_fields delim token (s +:+ String delim rest)
  = (token +:+ s) :: read_fields delim EmptyString rest.
Proof.
  revert token. induction s as [|c s IH]; intros token Hs; simpl.
  - rewrite Ascii.eqb_refl, append_empty_r. reflexivity.
  - destruct (Ascii.eqb_spec c delim) as [->|Hc].
    + exfalso. apply Hs. left.
    + rewrite IH, append_assoc; [reflexivity|].
      intros Hin. apply Hs. now right.
Qed.

Lemma read_fields_last (delim : ascii) (s token : string) :
  delim ∉ chars s ->
  token +:+ s <> EmptyString ->
  read_fields delim token s = [token +:+ s].
Proof.
  revert token. induction s as [|c s IH]; intros token Hs Hne; simpl.
  - rewrite append_empty_r in *. destruct token; [contradiction | reflexivity].
  - destruct (Ascii.eqb_spec c delim) as [->|Hc].
    + exfalso. apply Hs. left.
    + rewrite IH, append_assoc; [reflexivity| |].
      * intros Hin. apply Hs. now right.
      * rewrite append_assoc. simpl. destruct token; discriminate.
Qed.

(** The loop of [std::getline] takes a line apart into the fields it was
    joined from, when no field holds the delimiter and the last one is not
    empty. *)
Lemma read_fields_join (delim : ascii) (fields : list string) :
  Forall (fun s => delim ∉ chars s) fields ->
  last fields <> Some EmptyString ->
  read_fields delim EmptyString (join delim fields) = fields.
Proof.
  unfold join. induction fields as [|s fields IH]; intros Hall Hlast; [reflexivity|].
  inversion Hall as [|? ? Hs Hrest]; subst.
  destruct fields as [|s2 fields].
  - simpl. apply read_fields_last; [exact Hs|]. simpl in *. congruence.
  - change (String.concat (String delim EmptyString) (s :: s2 :: fields))
      with (s +:+ String delim (String.concat (String delim EmptyString) (s2 :: fields))).
    rewrite read_fields_token by exact Hs. simpl String.append. f_equal.
    apply IH; [exact Hrest|]. exact Hlast.
Qed.

Lemma strip_cr_any_char (s : string) :
  Forall (fun c => any_char c = true) (chars s) -> strip_cr s = s.
Proof.
  unfold strip_cr. intros Hall.
  destruct (back s) as [c|] eqn:Hback; [|reflexivity].
  destruct (Ascii.eqb_spec c carriage_return) as [->|]; [|reflexivity].
  exfalso. revert Hback Hall. induction s as [|d s IH]; [discriminate|].
  simpl. intros Hback Hall. inversion Hall as [|? ? Hd Hs]; subst.
  destruct s; [injection Hback as ->; discriminate|]. now apply IH.
Qed.

Lemma filter_all {A : Type} (P : A -> Prop) `{forall x, Decision (P x)} (l : list A) :
  Forall P l -> filter P l = l.
Proof.
  induction 1 as [|x l Hx Hl IH]; [reflexivity|].
  rewrite filter_cons_True by exact Hx. now rewrite IH.
Qed.

(** X13. A line made of fields joined by the delimiter is read back by
    [parseLine] as those fields in lower case, when no field is empty, is
    [#], or holds the delimiter or a line terminator. *)
Theorem parseLine_string_join (delim : ascii) (fields : list string) :
  Forall (fun s => s <> EmptyString /\ s <> "#" /\ (delim ∉ chars s) /\
                   Forall (fun c => any_char c = true) (chars s)) fields ->
  parseLine_string delim (join delim fields) = Done (lowercase <$> fields).
Proof.
  intros Hall. unfold parseLine_string. apply parse_fields_string_Done.
  rewrite read_fields_join.
  - split.
    + eapply Forall_impl; [exact Hall|]. intros s (Hne & _ & _ & Hc). right.
      now rewrite strip_cr_any_char.
    + rewrite filter_all by
        (eapply Forall_impl; [exact Hall|]; intros s H; apply H).
      apply Forall_fmap_ext_1. eapply Forall_impl; [exact Hall|].
      intros s (_ & _ & _ & Hc). simpl. now rewrite strip_cr_any_char.
  - eapply Forall_impl; [exact Hall|]. intros s H; apply H.
  - destruct (last fields) as [s|] eqn:Hlast; [|discriminate].
    apply last_Some_elem_of in Hlast. rewrite Forall_forall in Hall.
    destruct (Hall s Hlast) as [Hne _]. congruence.
Qed.

Lemma parseLine_string_join_witness :
  parseLine_string "," (join "," ["t"; "W_x"; "a z"]) = Done (lowercase <$> ["t"; "W_x"; "a z"]).
Proof.
  apply (parseLine_string_join "," ["t"; "W_x"; "a z"]).
  repeat constructor; try discriminate;
    intros Hin; repeat (apply elem_of_cons in Hin; destruct Hin as [Hin|Hin];
                        [discriminate Hin|]); now apply elem_of_nil in Hin.
Defined.

Lemma parse_fields_app_Done {T : Type} (convert : string -> result T) (r : regex)
    (before after : list string) (data : list T) :
  parse_fields convert r before = Done data ->
  parse_fields convert r (before ++ after)
  = (rest <- parse_fields convert r after ;; Done (data ++ rest))%result.
Proof.
  revert data. induction before as [|s before IH]; intros data; simpl.
  - intros [= <-]. destruct (parse_fields convert r after); reflexivity.
  - destruct (String.eqb s "#"); [apply IH|].
    destruct (prepare r s) as [s'|f]; simpl; [|discriminate].
    destruct (convert s') as [t|f]; simpl; [|discriminate].
    destruct (parse_fields convert r before) as [data'|f] eqn:Hbefore; simpl;
      [|discriminate].
    intros [= <-]. rewrite (IH data' eq_refl).
    destruct (parse_fields convert r after); reflexivity.
Qed.

(** X14. An empty field (two delimiters in a row, or a delimiter at the
    start of the line), on which [s.back()] is undefined and the model
    follows the program as built (see [prepare]): read as numbers, the line
    is never parsed to the end, and when the fields before the empty one go
    through the call throws [Regex match fail]; read as text, the empty
    field goes through as an empty entry between those of the fields before
    and after it. *)
Theorem parseLine_empty_field `{External} (delim : ascii) (line : string)
    (before after : list string) :
  read_fields delim EmptyString line = before ++ EmptyString :: after ->
  (forall data, parseLine_fp delim line <> Done data) /\
  (forall data, parse_fields convert_fp number_regex before = Done data ->
                parseLine_fp delim line = Failed Regex_match_fail) /\
  (forall data rest,
      parse_fields Done any_regex before = Done data ->
      parse_fields Done any_regex after = Done rest ->
      parseLine_string delim line = Done (data ++ EmptyString :: rest)).
Proof.
  intros Hfields. unfold parseLine_string, parseLine_fp. rewrite Hfields.
  split; [|split].
  - intros data Hdone. apply parse_fields_Done in Hdone.
    rewrite filter_app, filter_cons_True in Hdone by discriminate.
    apply Forall2_app_inv_l in Hdone. destruct Hdone as (d1 & d2 & _ & Hd2 & _).
    inversion Hd2 as [|? ? ? ? (s' & Hprep & _)]; subst. discriminate.
  - intros data Hbefore. rewrite (parse_fields_app_Done _ _ _ _ _ Hbefore).
    reflexivity.
  - intros data rest Hbefore Hafter.
    rewrite (parse_fields_app_Done _ _ _ _ _ Hbefore).
    cbn [parse_fields]. rewrite Hafter. reflexivity.
Qed.

Lemma parseLine_empty_field_witness :
  (forall data, parseLine_fp (H := simple_External) "," "1,,2" <> Done data) /\
  parseLine_fp (H := simple_External) "," "1,,2" = Failed Regex_match_fail /\
  parseLine_string "," "1,,2" = Done ["1"; ""; "2"].
Proof.
  destruct (parseLine_empty_field (H := simple_External) "," "1,,2" ["1"] ["2"]
              eq_refl) as (Hnever & Hfp & Hstring).
  split; [exact Hnever|]. split.
  - apply (Hfp [1%float]). reflexivity.
  - apply (Hstring ["1"] ["2"]); reflexivity.
Defined.

(** ** Lines that end in a carriage return *)

Lemma back_append_char (s : string) (c : ascii) :
  back (s +:+ String c EmptyString) = Some c.
Proof.
  induction s as [|d s IH]; [reflexivity|]. simpl.
  destruct (s +:+ String c EmptyString) eqn:Happ; [|exact IH].
  destruct s; discriminate.
Qed.

Lemma pop_back_append_char (s : string) (c : ascii) :
  pop_back (s +:+ String c EmptyString) = s.
Proof.
  induction s as [|d s IH]; [reflexivity|]. simpl.
  destruct (s +:+ String c EmptyString) eqn:Happ.
  - destruct s; discriminate.
  - now rewrite IH.
Qed.

Lemma read_fields_cr (delim c : ascii) (token line : string) :
  delim <> carriage_return ->
  back line = Some c -> c <> delim ->
  exists init s,
    read_fields delim token line = init ++ [s] /\ back s = Some c /\
    read_fields delim token (line +:+ String carriage_return EmptyString)
    = init ++ [s +:+ String carriage_return EmptyString].
Proof.
  intros Hdelim. revert token. induction line as [|d line IH]; intros token Hback Hc;
    [discriminate|].
  destruct line as [|d' line].
  - injection Hback as ->. exists [], (token +:+ String c EmptyString).
    assert (Hne : forall (t : string) (x : ascii),
               read_fields delim (t +:+ String x EmptyString) EmptyString
               = [t +:+ String x EmptyString]).
    { intros t x. cbn [read_fields].
      destruct (t +:+ String x EmptyString) eqn:Happ; [|reflexivity].
      destruct t; discriminate. }
    change (read_fields delim token (String c EmptyString))
      with (if Ascii.eqb c delim then token :: read_fields delim EmptyString EmptyString
            else read_fields delim (token +:+ String c EmptyString) EmptyString).
    change (read_fields delim token
              (String c EmptyString +:+ String carriage_return EmptyString))
      with (if Ascii.eqb c delim
            then token :: read_fields delim EmptyString (String carriage_return EmptyString)
            else if Ascii.eqb carriage_return delim
                 then (token +:+ String c EmptyString)
                        :: read_fields delim EmptyString EmptyString
                 else read_fields delim
                        ((token +:+ String c EmptyString)
                           +:+ String carriage_return EmptyString) EmptyString).
    rewrite (proj2 (Ascii.eqb_neq c delim) Hc).
    rewrite (proj2 (Ascii.eqb_neq carriage_return delim)) by congruence.
    rewrite !Hne, back_append_char. auto.
  - change (back (String d (String d' line))) with (back (String d' line)) in Hback.
    remember (String d' line) as rest eqn:Hrest.
    change (read_fields delim token (String d rest +:+ String carriage_return EmptyString))
      with (if Ascii.eqb d delim
            then token :: read_fields delim EmptyString
                            (rest +:+ String carriage_return EmptyString)
            else read_fields delim (token +:+ String d EmptyString)
                   (rest +:+ String carriage_return EmptyString)).
    change (read_fields delim token (String d rest))
      with (if Ascii.eqb d delim then token :: read_fields delim EmptyString rest
            else read_fields delim (token +:+ String d EmptyString) rest).
    destruct (Ascii.eqb d delim).
    + destruct (IH EmptyString Hback Hc) as (init & s & Hl & Hs & Hcr).
      exists (token :: init), s. rewrite Hl, Hcr. auto.
    + destruct (IH (token +:+ String d EmptyString) Hback Hc) as (init & s & Hl & Hs & Hcr).
      exists init, s. rewrite Hl, Hcr. auto.
Qed.

Lemma prepare_cr (r : regex) (s : string) (c : ascii) :
  back s = Some c -> c <> carriage_return ->
  prepare r (s +:+ String carriage_return EmptyString) = prepare r s.
Proof.
  intros Hback Hc. unfold prepare.
  rewrite back_append_char, Hback, Ascii.eqb_refl, pop_back_append_char.
  destruct (Ascii.eqb_spec c carriage_return); [contradiction | reflexivity].
Qed.

Lemma parse_fields_cr {T : Type} (convert : string -> result T) (r : regex)
    (init : list string) (s : string) (c : ascii) :
  back s = Some c -> c <> carriage_return -> s <> "#" ->
  parse_fields convert r (init ++ [s +:+ String carriage_return EmptyString])
  = parse_fields convert r (init ++ [s]).
Proof.
  intros Hback Hc Hs. induction init as [|s0 init IH]; simpl.
  - rewrite (prepare_cr r s c Hback Hc).
    destruct (String.eqb_spec s "#") as [|_]; [contradiction|].
    destruct (String.eqb_spec (s +:+ String carriage_return EmptyString) "#")
      as [Heq|_]; [|reflexivity].
    exfalso. destruct s as [|a [|b s]]; discriminate.
  - now rewrite IH.
Qed.

(** X15. A carriage return at the end of a line (a file with CRLF line
    ends) changes nothing of what [parseLine] does, for text and for
    numbers, when the delimiter is not the carriage return and the line ends
    in a character that is neither the delimiter nor a carriage return, in a
    field other than [#]. *)
Theorem parseLine_carriage_return `{External} (delim c : ascii) (line : string) :
  delim <> carriage_return ->
  back line = Some c -> c <> delim -> c <> carriage_return ->
  last (read_fields delim EmptyString line) <> Some "#" ->
  parseLine_string delim (line +:+ String carriage_return EmptyString)
  = parseLine_string delim line
  /\ parseLine_fp delim (line +:+ String carriage_return EmptyString)
     = parseLine_fp delim line.
Proof.
  intros Hdelim Hback Hc Hcr Hlast.
  destruct (read_fields_cr delim c EmptyString line Hdelim Hback Hc)
    as (init & s & Hl & Hs & Hl').
  unfold parseLine_string, parseLine_fp. rewrite Hl, Hl'.
  rewrite Hl, last_snoc in Hlast.
  assert (Hne : s <> "#") by congruence.
  split; apply (parse_fields_cr _ _ init s c); assumption.
Qed.

Lemma parseLine_carriage_return_witness :
  parseLine_string "," ("7,12" +:+ String carriage_return EmptyString)
  = parseLine_string "," "7,12"
  /\ parseLine_fp (H := simple_External) ","
       ("7,12" +:+ String carriage_return EmptyString)
     = parseLine_fp (H := simple_External) "," "7,12".
Proof.
  apply (parseLine_carriage_return (H := simple_External) "," "2" "7,12");
    [discriminate | reflexivity | discriminate | discriminate | discriminate].
Defined.

(** The line of the witness, with and without the carriage return. *)
Example parseLine_carriage_return_example :
  parseLine_fp (H := simple_External) ","
    ("7,12" +:+ String carriage_return EmptyString)
  = Done [7; 12]%float
  /\ parseLine_string "," ("7,a.PNG" +:+ String carriage_return EmptyString)
     = Done ["7"; "a.png"].
Proof. vm_compute. split; reflexivity. Qed.

(** ** The reading loops *)

Lemma parse_rows_Done {T : Type} (parseLine : string -> result (list T))
    (lines : list string) (data : list (list T)) :
  parse_rows parseLine lines = Done data <->
  Forall2 (fun line row => parseLine line = Done row) lines data.
Proof.
  revert data. induction lines as [|line lines IH]; intros data; simpl.
  - split; [intros [= <-]; constructor | now inversion 1].
  - destruct (parseLine line) as [row|f] eqn:Hline; simpl.
    + destruct (parse_rows parseLine lines) as [rows|f]; simpl.
      * split.
        -- intros [= <-]. constructor; [exact Hline | now apply IH].
        -- inversion 1 as [|? row' ? rows' Hrow Hrows]; subst.
           apply IH in Hrows. congruence.
      * split; [discriminate|].
        inversion 1 as [|? ? ? rows' _ Hrows]; subst.
        apply IH in Hrows. discriminate.
    + split; [discriminate | inversion 1; congruence].
Qed.

Lemma read_table_Done {T : Type} (delim : ascii)
    (parseLine : string -> result (list T)) (content : string)
    (header : list string) (data : list (list T)) :
  read_table delim parseLine content = Done (header, data) <->
  parseLine_string delim (hd EmptyString (lines_of content)) = Done header /\
  Forall2 (fun line row => parseLine line = Done row) (tl (lines_of content)) data.
Proof.
  unfold read_table. rewrite <- parse_rows_Done.
  destruct (parseLine_string delim (hd EmptyString (lines_of content))) as [h|f]; simpl.
  - destruct (parse_rows parseLine (tl (lines_of content))) as [rows|f]; simpl.
    + split; [intros [= <- <-]; auto | intros [[= <-] [= <-]]; reflexivity].
    + split; [discriminate | intros [_ ?]; discriminate].
  - split; [discriminate | intros [? _]; discriminate].
Qed.

Lemma after_reading_Done {T : Type} (table : result (list string * list (list T)))
    (second_half : list string -> list (list T) -> method unit)
    (self self' : dataParser) :
  after_reading table second_half self = (Done tt, self') ->
  exists header data,
    table = Done (header, data) /\ second_half header data self = (Return tt, self').
Proof.
  unfold after_reading. destruct table as [[header data]|f]; [|discriminate].
  destruct (second_half header data self) as [[[]|e] self1] eqn:Hsecond; simpl;
    [|discriminate].
  intros [= <-]. exists header, data. auto.
Qed.

(** ** The second halves, when they return *)

Lemma column_Return {A : Type} (indices : list nat) (it : list A) (k : nat) (v : A) :
  column indices it k = Return v <->
  exists n, indices !! k = Some n /\ it !! n = Some v.
Proof.
  unfold column, at_. destruct (indices !! k) as [n|] eqn:Hk; simpl.
  - destruct (it !! n) as [a|] eqn:Hn; split.
    + intros [= <-]. exists n. auto.
    + intros (n' & [= <-] & Hv). congruence.
    + discriminate.
    + intros (n' & [= <-] & Hv). congruence.
  - split; [discriminate | intros (n & ? & _); discriminate].
Qed.

Lemma column_nil {A : Type} (indices : list nat) (k : nat) (v : A) :
  column indices [] k <> Return v.
Proof. rewrite column_Return. intros (n & _ & Hn). discriminate. Qed.

Section second_halves.
Context `{External}.

Lemma getIndices_eq (header titles : list string) :
  getIndices header titles []
  = ((getIndices_loop (trimString <$> header) (trimString <$> titles) []).1,
     (trimString <$> header, trimString <$> titles,
      (getIndices_loop (trimString <$> header) (trimString <$> titles) []).2)).
Proof.
  unfold getIndices.
  now destruct (getIndices_loop (trimString <$> header) (trimString <$> titles) []).
Qed.

Lemma parseAndCheckImu_Return header data self self' :
  parseAndCheckImu true header data self = (Return tt, self') ->
  exists indices records,
    getIndices_loop (trimString <$> header) (trimString <$> imu_header_titles_ self) []
    = (true, indices) /\
    Forall2 (fun it imu => read_imu indices it = Return imu) data records /\
    self' = set_imu_data_ (std_sort Imu Imu_lt records)
              (set_imu_header_titles_ (trimString <$> imu_header_titles_ self) self).
Proof.
  unfold parseAndCheckImu. unfold method_bind at 1. rewrite getIndices_eq.
  destruct (getIndices_loop _ _ []) as [found indices]. simpl.
  destruct found; simpl; [|discriminate].
  unfold method_bind at 1. unfold modify at 1.
  match goal with
  | |- context [for_each ?body data ?s] =>
      destruct (for_each body data s) as [[[]|e] self1] eqn:Hloop
  end; [|discriminate].
  unfold modify. intros Hrun. injection Hrun as <-.
  apply (for_each_emplace_back (fun _ it => read_imu indices it)
           imu_data_ set_imu_data_) in Hloop;
    [|reflexivity|intros []; reflexivity|reflexivity|reflexivity].
  destruct Hloop as (records & Hall & ->). simpl in *.
  exists indices, records. auto.
Qed.

Lemma parseAndCheckGt_Return header data self self' :
  parseAndCheckGt true header data self = (Return tt, self') ->
  exists have_velocity have_bias indices records,
    groundtruth_flags (length (groundtruth_header_titles_ self))
    = Return (have_velocity, have_bias) /\
    getIndices_loop (trimString <$> header)
      (trimString <$> groundtruth_header_titles_ self) []
    = (true, indices) /\
    Forall2 (fun it gt => read_groundtruth have_velocity have_bias indices it = Return gt)
            data records /\
    self' = set_groundtruth_data_ (std_sort Groundtruth Groundtruth_lt records)
              (set_groundtruth_header_titles_
                 (trimString <$> groundtruth_header_titles_ self) self).
Proof.
  unfold parseAndCheckGt. unfold method_bind at 1.
  destruct (groundtruth_flags (length (groundtruth_header_titles_ self)))
    as [[have_velocity have_bias]|e]; [|discriminate].
  unfold method_bind at 1. rewrite getIndices_eq.
  destruct (getIndices_loop _ _ []) as [found indices]. simpl.
  destruct found; simpl; [|discriminate].
  unfold method_bind at 1. unfold modify at 1.
  match goal with
  | |- context [for_each ?body data ?s] =>
      destruct (for_each body data s) as [[[]|e] self1] eqn:Hloop
  end; [|discriminate].
  unfold modify. intros Hrun. injection Hrun as <-.
  apply (for_each_emplace_back
           (fun _ it => read_groundtruth have_velocity have_bias indices it)
           groundtruth_data_ set_groundtruth_data_) in Hloop;
    [|reflexivity|intros []; reflexivity|reflexivity|reflexivity].
  destruct Hloop as (records & Hall & ->). simpl in *.
  exists have_velocity, have_bias, indices, records. auto.
Qed.

Lemma parseAndCheckImages_Return header data self self' :
  parseAndCheckImages true header data self = (Return tt, self') ->
  exists indices records,
    getIndices_loop (trimString <$> header) (trimString <$> image_header_titles_ self) []
    = (true, indices) /\
    Forall2 (fun it cam => read_camera self indices it = Return cam) data records /\
    self' = set_image_data_ (std_sort Camera Camera_lt records)
              (set_image_header_titles_ (trimString <$> image_header_titles_ self) self).
Proof.
  unfold parseAndCheckImages. unfold method_bind at 1. rewrite getIndices_eq.
  destruct (getIndices_loop _ _ []) as [found indices]. simpl.
  destruct found; simpl; [|discriminate].
  unfold method_bind at 1. unfold modify at 1.
  match goal with
  | |- context [for_each ?body data ?s] =>
      destruct (for_each body data s) as [[[]|e] self1] eqn:Hloop
  end; [|discriminate].
  unfold modify. intros Hrun. injection Hrun as <-.
  apply (for_each_emplace_back
           (fun self it => read_camera self indices it)
           image_data_ set_image_data_) in Hloop;
    [|reflexivity|intros []; reflexivity|reflexivity|reflexivity].
  destruct Hloop as (records & Hall & ->). simpl in *.
  exists indices, records. auto.
Qed.

End second_halves.

(** ** Rows without fields *)

Lemma read_imu_nil (indices : list nat) (imu : Imu) :
  read_imu indices [] <> Return imu.
Proof.
  unfold read_imu. intros Hread. bind_inv Hread. now apply column_nil in Ha.
Qed.

Lemma read_groundtruth_nil `{External} (have_velocity have_bias : bool)
    (indices : list nat) (gt : Groundtruth) :
  read_groundtruth have_velocity have_bias indices [] <> Return gt.
Proof.
  unfold read_groundtruth. intros Hread. bind_inv Hread. now apply column_nil in Ha.
Qed.

Lemma read_camera_nil `{External} (self : dataParser) (indices : list nat) (cam : Camera) :
  read_camera self indices [] <> Return cam.
Proof.
  unfold read_camera. intros Hread. bind_inv Hread. now apply column_nil in Ha.
Qed.

Lemma Forall2_blank {T B : Type} (parseLine : string -> result (list T))
    (read : list T -> outcome B) (lines : list string) (data : list (list T))
    (records : list B) :
  parseLine EmptyString = Done [] ->
  (forall b, read [] <> Return b) ->
  EmptyString ∈ lines ->
  Forall2 (fun line row => parseLine line = Done row) lines data ->
  Forall2 (fun it b => read it = Return b) data records ->
  False.
Proof.
  intros Hblank Hnil Hin Hrows Hall.
  apply list_elem_of_lookup in Hin. destruct Hin as [i Hi].
  destruct (Forall2_lookup_l _ _ _ _ _ Hrows Hi) as (row & Hrow & Hparse).
  rewrite Hblank in Hparse. injection Hparse as <-.
  destruct (Forall2_lookup_l _ _ _ _ _ Hall Hrow) as (b & _ & Hb).
  exact (Hnil b Hb).
Qed.

(** X16. A file with an empty line after its header (a line feed right
    after a line feed, as a blank line at the end of the file is) is never
    parsed to the end, by none of the three parsers: the line gives a row
    without entries, and the first column read of it is out of range, if the
    call got that far. *)
Theorem parsers_blank_line `{External} (delim : ascii) (content : string)
    (self : dataParser) :
  EmptyString ∈ tl (lines_of content) ->
  (parseAndCheckImu_file delim content self).1 <> Done tt /\
  (parseAndCheckGt_file delim content self).1 <> Done tt /\
  (parseAndCheckImages_file delim content self).1 <> Done tt.
Proof.
  intros Hin. split; [|split].
  - destruct (parseAndCheckImu_file delim content self) as [r self'] eqn:Hrun.
    simpl. intros ->. apply after_reading_Done in Hrun.
    destruct Hrun as (header & data & Htable & Hsecond).
    apply read_table_Done in Htable. destruct Htable as [_ Hrows].
    apply parseAndCheckImu_Return in Hsecond.
    destruct Hsecond as (indices & records & _ & Hall & _).
    eapply (Forall2_blank (parseLine_fp delim) (read_imu indices));
      [reflexivity | apply read_imu_nil | exact Hin | exact Hrows | exact Hall].
  - destruct (parseAndCheckGt_file delim content self) as [r self'] eqn:Hrun.
    simpl. intros ->. unfold parseAndCheckGt_file in Hrun.
    destruct (groundtruth_flags _); [|discriminate].
    apply after_reading_Done in Hrun.
    destruct Hrun as (header & data & Htable & Hsecond).
    apply read_table_Done in Htable. destruct Htable as [_ Hrows].
    apply parseAndCheckGt_Return in Hsecond.
    destruct Hsecond as (hv & hb & indices & records & _ & _ & Hall & _).
    eapply (Forall2_blank (parseLine_fp delim) (read_groundtruth hv hb indices));
      [reflexivity | apply read_groundtruth_nil | exact Hin | exact Hrows | exact Hall].
  - destruct (parseAndCheckImages_file delim content self) as [r self'] eqn:Hrun.
    simpl. intros ->. apply after_reading_Done in Hrun.
    destruct Hrun as (header & data & Htable & Hsecond).
    apply read_table_Done in Htable. destruct Htable as [_ Hrows].
    apply parseAndCheckImages_Return in Hsecond.
    destruct Hsecond as (indices & records & _ & Hall & _).
    eapply (Forall2_blank (parseLine_string delim) (read_camera self indices));
      [reflexivity | apply read_camera_nil | exact Hin | exact Hrows | exact Hall].
Qed.

Lemma parsers_blank_line_witness :
  (parseAndCheckImu_file (H := simple_External) "," example_blank_line_file
     example_parser).1 <> Done tt /\
  (parseAndCheckGt_file (H := simple_External) "," example_blank_line_file
     example_parser).1 <> Done tt /\
  (parseAndCheckImages_file (H := simple_External) "," example_blank_line_file
     example_parser).1 <> Done tt.
Proof.
  apply (parsers_blank_line (H := simple_External) "," example_blank_line_file
           example_parser).
  vm_compute. left.
Defined.

(** ** Titles that the header does not have *)

Lemma getIndices_loop_missing (header titles : list string) (indices : list nat) :
  Exists (fun title => title ∉ header) titles ->
  (getIndices_loop header titles indices).1 = false.
Proof.
  intros Hex. pose proof (getIndices_loop_spec header titles indices) as Hspec.
  destruct (getIndices_loop header titles indices) as [found indices']. simpl.
  destruct found; [|reflexivity]. exfalso. destruct Hspec as [[Hall _] _].
  specialize (Hall eq_refl). apply Exists_exists in Hex.
  destruct Hex as (title & Hin & Hnot).
  rewrite Forall_forall in Hall. exact (Hnot (Hall title Hin)).
Qed.

Section missing_titles.
Context `{External}.
Context (header : list string).

Lemma getIndices_missing (titles : list string) :
  Exists (fun title => trimString title ∉ trimString <$> header) titles ->
  (getIndices_loop (trimString <$> header) (trimString <$> titles) []).1 = false.
Proof.
  intros Hex. apply getIndices_loop_missing. apply Exists_fmap. exact Hex.
Qed.

Lemma parseAndCheckImu_missing (data : list (list fp)) (self : dataParser) :
  Exists (fun title => trimString title ∉ trimString <$> header)
         (imu_header_titles_ self) ->
  parseAndCheckImu true header data self
  = (Throw (runtime_error Required_imu_missing),
     set_imu_header_titles_ (trimString <$> imu_header_titles_ self) self).
Proof.
  intros Hex. unfold parseAndCheckImu. unfold method_bind at 1.
  rewrite getIndices_eq, (getIndices_missing _ Hex). reflexivity.
Qed.

Lemma parseAndCheckGt_missing (data : list (list fp)) (self : dataParser)
    (flags : bool * bool) :
  groundtruth_flags (length (groundtruth_header_titles_ self)) = Return flags ->
  Exists (fun title => trimString title ∉ trimString <$> header)
         (groundtruth_header_titles_ self) ->
  parseAndCheckGt true header data self
  = (Throw (runtime_error Required_groundtruth_missing),
     set_groundtruth_header_titles_
       (trimString <$> groundtruth_header_titles_ self) self).
Proof.
  intros Hflags Hex. unfold parseAndCheckGt. unfold method_bind at 1.
  rewrite Hflags. destruct flags as [have_velocity have_bias].
  unfold method_bind at 1.
  rewrite getIndices_eq, (getIndices_missing _ Hex). reflexivity.
Qed.

Lemma parseAndCheckImages_missing (data : list (list string)) (self : dataParser) :
  Exists (fun title => trimString title ∉ trimString <$> header)
         (image_header_titles_ self) ->
  parseAndCheckImages true header data self
  = (Throw (runtime_error Required_groundtruth_missing),
     set_image_header_titles_ (trimString <$> image_header_titles_ self) self).
Proof.
  intros Hex. unfold parseAndCheckImages. unfold method_bind at 1.
  rewrite getIndices_eq, (getIndices_missing _ Hex). reflexivity.
Qed.

End missing_titles.

Lemma read_table_header {T : Type} (delim : ascii)
    (parseLine : string -> result (list T)) (content : string) (header : list string) :
  parseLine_string delim (hd EmptyString (lines_of content)) = Done header ->
  read_table delim parseLine content
  = (data <- parse_rows parseLine (tl (lines_of content)) ;; Done (header, data))%result.
Proof. unfold read_table. now intros ->. Qed.

Section missing_titles_in_files.
Context `{External}.
Context (delim : ascii) (content : string) (header : list string).
Context (header_read :
           parseLine_string delim (hd EmptyString (lines_of content)) = Done header).

Lemma parseAndCheckImu_file_missing (self : dataParser) :
  Exists (fun title => trimString title ∉ trimString <$> header)
         (imu_header_titles_ self) ->
  (parseAndCheckImu_file delim content self).1 <> Done tt /\
  imu_data_ (parseAndCheckImu_file delim content self).2 = imu_data_ self /\
  forall data,
    Forall2 (fun line row => parseLine_fp delim line = Done row)
            (tl (lines_of content)) data ->
    parseAndCheckImu_file delim content self
    = (Failed (thrown (runtime_error Required_imu_missing)),
       set_imu_header_titles_ (trimString <$> imu_header_titles_ self) self).
Proof.
  intros Hex. unfold parseAndCheckImu_file, after_reading.
  rewrite (read_table_header _ _ _ _ header_read).
  destruct (parse_rows (parseLine_fp delim) (tl (lines_of content)))
    as [rows|f] eqn:Hrows; simpl.
  - rewrite (parseAndCheckImu_missing header rows self Hex). simpl.
    split; [discriminate|]. split; [reflexivity|]. reflexivity.
  - split; [discriminate|]. split; [reflexivity|].
    intros data Hdata. apply parse_rows_Done in Hdata. congruence.
Qed.

Lemma parseAndCheckGt_file_missing (self : dataParser) :
  Exists (fun title => trimString title ∉ trimString <$> header)
         (groundtruth_header_titles_ self) ->
  (parseAndCheckGt_file delim content self).1 <> Done tt /\
  groundtruth_data_ (parseAndCheckGt_file delim content self).2
  = groundtruth_data_ self /\
  forall flags data,
    groundtruth_flags (length (groundtruth_header_titles_ self)) = Return flags ->
    Forall2 (fun line row => parseLine_fp delim line = Done row)
            (tl (lines_of content)) data ->
    parseAndCheckGt_file delim content self
    = (Failed (thrown (runtime_error Required_groundtruth_missing)),
       set_groundtruth_header_titles_
         (trimString <$> groundtruth_header_titles_ self) self).
Proof.
  intros Hex. unfold parseAndCheckGt_file, after_reading.
  destruct (groundtruth_flags (length (groundtruth_header_titles_ self)))
    as [flags|e] eqn:Hflags.
  - rewrite (read_table_header _ _ _ _ header_read).
    destruct (parse_rows (parseLine_fp delim) (tl (lines_of content)))
      as [rows|f] eqn:Hrows; simpl.
    + rewrite (parseAndCheckGt_missing header rows self flags Hflags Hex). simpl.
      split; [discriminate|]. split; [reflexivity|]. reflexivity.
    + split; [discriminate|]. split; [reflexivity|].
      intros flags' data _ Hdata. apply parse_rows_Done in Hdata. congruence.
  - simpl. split; [discriminate|]. split; [reflexivity|]. discriminate.
Qed.

Lemma parseAndCheckImages_file_missing (self : dataParser) :
  Exists (fun title => trimString title ∉ trimString <$> header)
         (image_header_titles_ self) ->
  (parseAndCheckImages_file delim content self).1 <> Done tt /\
  image_data_ (parseAndCheckImages_file delim content self).2 = image_data_ self /\
  forall data,
    Forall2 (fun line row => parseLine_string delim line = Done row)
            (tl (lines_of content)) data ->
    parseAndCheckImages_file delim content self
    = (Failed (thrown (runtime_error Required_groundtruth_missing)),
       set_image_header_titles_ (trimString <$> image_header_titles_ self) self).
Proof.
  intros Hex. unfold parseAndCheckImages_file, after_reading.
  rewrite (read_table_header _ _ _ _ header_read).
  destruct (parse_rows (parseLine_string delim) (tl (lines_of content)))
    as [rows|f] eqn:Hrows; simpl.
  - rewrite (parseAndCheckImages_missing header rows self Hex). simpl.
    split; [discriminate|]. split; [reflexivity|]. reflexivity.
  - split; [discriminate|]. split; [reflexivity|].
    intros data Hdata. apply parse_rows_Done in Hdata. congruence.
Qed.

End missing_titles_in_files.

(** X17. A file whose first line is read as a header that lacks one of the
    titles (both trimmed). The parser does not return normally and the data
    it holds stays as it was, whatever the other lines are. When every other
    line is read by [parseLine] (and, for the groundtruth, the number of
    titles is one of the four accepted), the call gets to the check of the
    titles and throws: the IMU parser [Required imu missing], the
    groundtruth parser and the image parser as well
    [Required groundtruth missing], with the titles left trimmed; else it
    has failed before, at the line that is not read or at the number of
    titles. *)
Theorem parsers_missing_title `{External} (delim : ascii) (content : string)
    (header : list string) (self : dataParser) :
  parseLine_string delim (hd EmptyString (lines_of content)) = Done header ->
  (Exists (fun title => trimString title ∉ trimString <$> header)
          (imu_header_titles_ self) ->
   (parseAndCheckImu_file delim content self).1 <> Done tt /\
   imu_data_ (parseAndCheckImu_file delim content self).2 = imu_data_ self /\
   forall data,
     Forall2 (fun line row => parseLine_fp delim line = Done row)
             (tl (lines_of content)) data ->
     parseAndCheckImu_file delim content self
     = (Failed (thrown (runtime_error Required_imu_missing)),
        set_imu_header_titles_ (trimString <$> imu_header_titles_ self) self))
  /\ (Exists (fun title => trimString title ∉ trimString <$> header)
             (groundtruth_header_titles_ self) ->
      (parseAndCheckGt_file delim content self).1 <> Done tt /\
      groundtruth_data_ (parseAndCheckGt_file delim content self).2
      = groundtruth_data_ self /\
      forall flags data,
        groundtruth_flags (length (groundtruth_header_titles_ self)) = Return flags ->
        Forall2 (fun line row => parseLine_fp delim line = Done row)
                (tl (lines_of content)) data ->
        parseAndCheckGt_file delim content self
        = (Failed (thrown (runtime_error Required_groundtruth_missing)),
           set_groundtruth_header_titles_
             (trimString <$> groundtruth_header_titles_ self) self))
  /\ (Exists (fun title => trimString title ∉ trimString <$> header)
             (image_header_titles_ self) ->
      (parseAndCheckImages_file delim content self).1 <> Done tt /\
      image_data_ (parseAndCheckImages_file delim content self).2
      = image_data_ self /\
      forall data,
        Forall2 (fun line row => parseLine_string delim line = Done row)
                (tl (lines_of content)) data ->
        parseAndCheckImages_file delim content self
        = (Failed (thrown (runtime_error Required_groundtruth_missing)),
           set_image_header_titles_ (trimString <$> image_header_titles_ self) self)).
Proof.
  intros Hheader. split; [|split]; intros Hex.
  - exact (parseAndCheckImu_file_missing delim content header Hheader self Hex).
  - exact (parseAndCheckGt_file_missing delim content header Hheader self Hex).
  - exact (parseAndCheckImages_file_missing delim content header Hheader self Hex).
Qed.

Lemma parsers_missing_title_witness :
  parseAndCheckImu_file (H := simple_External) "," example_missing_title_file
    example_parser
  = (Failed (thrown (runtime_error Required_imu_missing)), example_parser)
  /\ parseAndCheckGt_file (H := simple_External) "," example_missing_title_file
       example_parser
     = (Failed (thrown (runtime_error Required_groundtruth_missing)), example_parser)
  /\ parseAndCheckImages_file (H := simple_External) "," example_missing_title_file
       example_parser
     = (Failed (thrown (runtime_error Required_groundtruth_missing)), example_parser).
Proof.
  assert (Hmissing : forall titles : list string,
             "name" ∈ titles \/ "w_y" ∈ titles \/ "q_x" ∈ titles ->
             Exists (fun title => trimString (External := simple_External) title
                                  ∉ trimString (External := simple_External)
                                      <$> ["t"; "w_x"]) titles).
  { intros titles Hin. apply Exists_exists.
    assert (Hnot : forall title : string,
               title <> "t" -> title <> "w_x" ->
               title ∉ ["t"; "w_x"]).
    { intros title Ht Hw Hin'.
      repeat (apply elem_of_cons in Hin'; destruct Hin' as [Hin'|Hin'];
              [congruence|]).
      now apply elem_of_nil in Hin'. }
    destruct Hin as [Hin|[Hin|Hin]]; eexists; (split; [exact Hin|]);
      apply Hnot; discriminate. }
  destruct (parsers_missing_title (H := simple_External) ","
              example_missing_title_file ["t"; "w_x"] example_parser eq_refl)
    as (Himu & Hgt & Himg).
  split; [|split].
  - destruct Himu as (_ & _ & Himu).
    + apply Hmissing. right. left. simpl. repeat constructor.
    + rewrite (Himu [[1; 2]; [3; 4]]%float) by (repeat constructor). reflexivity.
  - destruct Hgt as (_ & _ & Hgt).
    + apply Hmissing. right. right. simpl. repeat constructor.
    + rewrite (Hgt (false, true) [[1; 2]; [3; 4]]%float eq_refl)
        by (repeat constructor).
      reflexivity.
  - destruct Himg as (_ & _ & Himg).
    + apply Hmissing. left. simpl. repeat constructor.
    + rewrite (Himg [["1"; "2"]; ["3"; "4"]]) by (repeat constructor). reflexivity.
Defined.

(** The same header over a row that is no number: the IMU parser fails at
    that row, before it looks at the titles, and leaves them as they were. *)
Example parsers_missing_title_example :
  parseAndCheckImu_file (H := simple_External) ","
    (lines ["t,w_x"; "1,abc"]) example_parser
  = (Failed Regex_match_fail, example_parser).
Proof. vm_compute. reflexivity. Qed.

(** ** A file without a line *)

Lemma missing_in_empty_header `{External} (titles : list string) :
  titles <> [] ->
  Exists (fun title => trimString title ∉ trimString <$> []) titles.
Proof.
  destruct titles as [|title titles]; [contradiction|]. intros _.
  left. apply not_elem_of_nil.
Qed.

Lemma groundtruth_flags_Throw (titles : nat) (e : exception) :
  groundtruth_flags titles = Throw e ->
  e = runtime_error Wrong_number_of_groundtruth_header_titles.
Proof.
  unfold groundtruth_flags.
  repeat match goal with
  | |- context [Nat.eqb ?a ?b] => destruct (Nat.eqb a b); [discriminate|]
  end.
  congruence.
Qed.

Lemma groundtruth_flags_Return (titles : nat) (flags : bool * bool) :
  groundtruth_flags titles = Return flags -> titles <> 0.
Proof. intros Hflags ->. discriminate. Qed.

(** X18. On an empty file a parser throws, and stores nothing: the IMU
    parser [Required imu missing] and the image parser
    [Required groundtruth missing] when they have a title to look for; the
    groundtruth parser [Required groundtruth missing] when the number of
    its titles is one of the four it accepts. The titles are left
    trimmed. *)
Theorem parsers_empty_file `{External} (delim : ascii) (self : dataParser) :
  (imu_header_titles_ self <> [] ->
   parseAndCheckImu_file delim EmptyString self
   = (Failed (thrown (runtime_error Required_imu_missing)),
      set_imu_header_titles_ (trimString <$> imu_header_titles_ self) self))
  /\ (forall flags,
        groundtruth_flags (length (groundtruth_header_titles_ self)) = Return flags ->
        parseAndCheckGt_file delim EmptyString self
        = (Failed (thrown (runtime_error Required_groundtruth_missing)),
           set_groundtruth_header_titles_
             (trimString <$> groundtruth_header_titles_ self) self))
  /\ (image_header_titles_ self <> [] ->
      parseAndCheckImages_file delim EmptyString self
      = (Failed (thrown (runtime_error Required_groundtruth_missing)),
         set_image_header_titles_ (trimString <$> image_header_titles_ self) self)).
Proof.
  split; [|split].
  - intros Hne. unfold parseAndCheckImu_file, after_reading.
    change (read_table delim (parseLine_fp delim) EmptyString)
      with (@Done (list string * list (list fp)) ([], [])).
    cbv beta iota.
    now rewrite (parseAndCheckImu_missing [] [] self (missing_in_empty_header _ Hne)).
  - intros flags Hflags. unfold parseAndCheckGt_file, after_reading. rewrite Hflags.
    change (read_table delim (parseLine_fp delim) EmptyString)
      with (@Done (list string * list (list fp)) ([], [])).
    cbv beta iota.
    rewrite (parseAndCheckGt_missing [] [] self flags Hflags); [reflexivity|].
    apply missing_in_empty_header. apply groundtruth_flags_Return in Hflags.
    intros Hnil. rewrite Hnil in Hflags. now apply Hflags.
  - intros Hne. unfold parseAndCheckImages_file, after_reading.
    change (read_table delim (parseLine_string delim) EmptyString)
      with (@Done (list string * list (list string)) ([], [])).
    cbv beta iota.
    now rewrite (parseAndCheckImages_missing [] [] self (missing_in_empty_header _ Hne)).
Qed.

(** ** What a parser leaves as it was *)

Lemma for_each_invariant {A : Type} (P : dataParser -> Prop)
    (body : A -> method unit) (data : list A)
    (self : dataParser) (o : outcome unit) (self' : dataParser) :
  (forall it s o' s', P s -> body it s = (o', s') -> P s') ->
  P self -> for_each body data self = (o, self') -> P self'.
Proof.
  intros Hbody. revert self. induction data as [|it data IH]; simpl; intros self HP Hrun.
  - injection Hrun as <- <-. exact HP.
  - unfold method_bind in Hrun. destruct (body it self) as [[[]|e] s1] eqn:Hb.
    + eapply IH; [|exact Hrun]. eapply Hbody; eauto.
    + injection Hrun as <- <-. eapply Hbody; eauto.
Qed.

Section invariants.
Context `{External}.
Context (P : dataParser -> Prop).

Lemma parseAndCheckImu_invariant good header data self o self' :
  (forall v s, P s -> P (set_imu_data_ v s)) ->
  (forall v s, P s -> P (set_imu_header_titles_ v s)) ->
  P self -> parseAndCheckImu good header data self = (o, self') -> P self'.
Proof.
  intros Hdata Htitles HP. unfold parseAndCheckImu. unfold method_bind at 1.
  destruct good; [|intros [= <- <-]; exact HP].
  rewrite getIndices_eq.
  destruct (getIndices_loop _ _ []) as [found indices]. simpl.
  destruct found; simpl; [|intros [= <- <-]; now apply Htitles].
  unfold method_bind at 1. unfold modify at 1.
  match goal with
  | |- context [for_each ?body data ?s] =>
      destruct (for_each body data s) as [o1 self1] eqn:Hloop
  end.
  apply (for_each_invariant P) in Hloop.
  - destruct o1 as [[]|e]; unfold modify; intros [= <- <-]; auto.
  - intros it s o' s' Hs. unfold method_bind, method_of, modify.
    destruct (read_imu indices it); intros [= <- <-]; auto.
  - auto.
Qed.

Lemma parseAndCheckGt_invariant good header data self o self' :
  (forall v s, P s -> P (set_groundtruth_data_ v s)) ->
  (forall v s, P s -> P (set_groundtruth_header_titles_ v s)) ->
  P self -> parseAndCheckGt good header data self = (o, self') -> P self'.
Proof.
  intros Hdata Htitles HP. unfold parseAndCheckGt. unfold method_bind at 1.
  destruct (groundtruth_flags (length (groundtruth_header_titles_ self)))
    as [[have_velocity have_bias]|e]; [|intros [= <- <-]; exact HP].
  unfold method_bind at 1.
  destruct good; [|intros [= <- <-]; exact HP].
  rewrite getIndices_eq.
  destruct (getIndices_loop _ _ []) as [found indices]. simpl.
  destruct found; simpl; [|intros [= <- <-]; now apply Htitles].
  unfold method_bind at 1. unfold modify at 1.
  match goal with
  | |- context [for_each ?body data ?s] =>
      destruct (for_each body data s) as [o1 self1] eqn:Hloop
  end.
  apply (for_each_invariant P) in Hloop.
  - destruct o1 as [[]|e]; unfold modify; intros [= <- <-]; auto.
  - intros it s o' s' Hs. unfold method_bind, method_of, modify.
    destruct (read_groundtruth have_velocity have_bias indices it);
      intros [= <- <-]; auto.
  - auto.
Qed.

Lemma parseAndCheckImages_invariant good header data self o self' :
  (forall v s, P s -> P (set_image_data_ v s)) ->
  (forall v s, P s -> P (set_image_header_titles_ v s)) ->
  P self -> parseAndCheckImages good header data self = (o, self') -> P self'.
Proof.
  intros Hdata Htitles HP. unfold parseAndCheckImages. unfold method_bind at 1.
  destruct good; [|intros [= <- <-]; exact HP].
  rewrite getIndices_eq.
  destruct (getIndices_loop _ _ []) as [found indices]. simpl.
  destruct found; simpl; [|intros [= <- <-]; now apply Htitles].
  unfold method_bind at 1. unfold modify at 1.
  match goal with
  | |- context [for_each ?body data ?s] =>
      destruct (for_each body data s) as [o1 self1] eqn:Hloop
  end.
  apply (for_each_invariant P) in Hloop.
  - destruct o1 as [[]|e]; unfold modify; intros [= <- <-]; auto.
  - intros it s o' s' Hs. unfold method_bind, method_of, modify.
    destruct (read_camera s indices it); intros [= <- <-]; auto.
  - auto.
Qed.

Lemma after_reading_invariant {T : Type}
    (table : result (list string * list (list T)))
    (second_half : list string -> list (list T) -> method unit)
    (self : dataParser) (r : result unit) (self' : dataParser) :
  (forall header data o s', second_half header data self = (o, s') -> P s') ->
  P self -> after_reading table second_half self = (r, self') -> P self'.
Proof.
  intros Hsecond HP. unfold after_reading.
  destruct table as [[header data]|f]; [|intros [= <- <-]; exact HP].
  destruct (second_half header data self) as [o s1] eqn:Hrun.
  intros [= <- <-]. eapply Hsecond. exact Hrun.
Qed.

Lemma parseAndCheckImu_file_invariant delim content self r self' :
  (forall v s, P s -> P (set_imu_data_ v s)) ->
  (forall v s, P s -> P (set_imu_header_titles_ v s)) ->
  P self -> parseAndCheckImu_file delim content self = (r, self') -> P self'.
Proof.
  intros Hdata Htitles HP. apply after_reading_invariant; [|exact HP].
  intros header data o s'. now apply parseAndCheckImu_invariant.
Qed.

Lemma parseAndCheckGt_file_invariant delim content self r self' :
  (forall v s, P s -> P (set_groundtruth_data_ v s)) ->
  (forall v s, P s -> P (set_groundtruth_header_titles_ v s)) ->
  P self -> parseAndCheckGt_file delim content self = (r, self') -> P self'.
Proof.
  intros Hdata Htitles HP. unfold parseAndCheckGt_file.
  destruct (groundtruth_flags _); [|intros [= <- <-]; exact HP].
  apply after_reading_invariant; [|exact HP].
  intros header data o s'. now apply parseAndCheckGt_invariant.
Qed.

Lemma parseAndCheckImages_file_invariant delim content self r self' :
  (forall v s, P s -> P (set_image_data_ v s)) ->
  (forall v s, P s -> P (set_image_header_titles_ v s)) ->
  P self -> parseAndCheckImages_file delim content self = (r, self') -> P self'.
Proof.
  intros Hdata Htitles HP. apply after_reading_invariant; [|exact HP].
  intros header data o s'. now apply parseAndCheckImages_invariant.
Qed.

End invariants.

(** ** [parseAndCheck] *)

Section parseAndCheck_facts.
Context `{External} `{FileSystem}.

Lemma parse_step_eq (step : reading unit) (self : dataParserFiles) :
  parse_step step self = ((step (members self)).1, set_members (step (members self)).2 self).
Proof. unfold parse_step. now destruct (step (members self)). Qed.

Lemma parseAndCheck_members (P : dataParser -> Prop) (self : dataParserFiles) :
  (groundtruth_filename_ self <> EmptyString ->
   (forall v s, P s -> P (set_groundtruth_data_ v s)) /\
   (forall v s, P s -> P (set_groundtruth_header_titles_ v s))) ->
  (imu_filename_ self <> EmptyString ->
   (forall v s, P s -> P (set_imu_data_ v s)) /\
   (forall v s, P s -> P (set_imu_header_titles_ v s))) ->
  (image_data_filename_ self <> EmptyString ->
   (forall v s, P s -> P (set_image_data_ v s)) /\
   (forall v s, P s -> P (set_image_header_titles_ v s))) ->
  P (members self) -> P (members (parseAndCheck self).2).
Proof.
  destruct self as [imu gt img ri rg rim delim m]. simpl.
  intros Hgt Himu Himg HP. unfold parseAndCheck. simpl.
  assert (Hstep_gt : forall content,
             gt <> EmptyString ->
             P (parseAndCheckGt_file delim content m).2).
  { intros content Hne. destruct (Hgt Hne) as [Hd Ht].
    destruct (parseAndCheckGt_file delim content m) as [r m'] eqn:Hrun.
    eapply (parseAndCheckGt_file_invariant P); eauto. }
  assert (Hstep_imu : forall content m1,
             imu <> EmptyString -> P m1 ->
             P (parseAndCheckImu_file delim content m1).2).
  { intros content m1 Hne Hm1. destruct (Himu Hne) as [Hd Ht].
    destruct (parseAndCheckImu_file delim content m1) as [r m'] eqn:Hrun.
    eapply (parseAndCheckImu_file_invariant P); eauto. }
  assert (Hstep_img : forall content m1,
             img <> EmptyString -> P m1 ->
             P (parseAndCheckImages_file delim content m1).2).
  { intros content m1 Hne Hm1. destruct (Himg Hne) as [Hd Ht].
    destruct (parseAndCheckImages_file delim content m1) as [r m'] eqn:Hrun.
    eapply (parseAndCheckImages_file_invariant P); eauto. }
  clear Hgt Himu Himg.
  destruct (String.eqb_spec gt "") as [->|Hgt]; simpl.
  - destruct (String.eqb_spec imu "") as [->|Himu]; simpl.
    + destruct (String.eqb_spec img "") as [->|Himg]; simpl; [exact HP|].
      destruct (open_file img) as [content|]; [|exact HP].
      destruct (is_directory (image_data_folder_ m)); [|exact HP].
      rewrite parse_step_eq. simpl. now apply Hstep_img.
    + destruct (open_file imu) as [content|]; [|exact HP].
      rewrite parse_step_eq. simpl.
      specialize (Hstep_imu content m Himu HP).
      destruct (parseAndCheckImu_file delim content m) as [[[]|f] m1]; simpl in *;
        [|exact Hstep_imu].
      destruct (String.eqb_spec img "") as [->|Himg]; simpl; [exact Hstep_imu|].
      destruct (open_file img) as [content'|]; [|exact Hstep_imu].
      destruct (is_directory (image_data_folder_ m1)); [|exact Hstep_imu].
      rewrite parse_step_eq. simpl. now apply Hstep_img.
  - destruct (open_file gt) as [content0|]; [|exact HP].
    rewrite parse_step_eq. simpl.
    specialize (Hstep_gt content0 Hgt).
    destruct (parseAndCheckGt_file delim content0 m) as [[[]|f] m0]; simpl in *;
      [|exact Hstep_gt].
    destruct (String.eqb_spec imu "") as [->|Himu]; simpl.
    + destruct (String.eqb_spec img "") as [->|Himg]; simpl; [exact Hstep_gt|].
      destruct (open_file img) as [content|]; [|exact Hstep_gt].
      destruct (is_directory (image_data_folder_ m0)); [|exact Hstep_gt].
      rewrite parse_step_eq. simpl. now apply Hstep_img.
    + destruct (open_file imu) as [content|]; [|exact Hstep_gt].
      rewrite parse_step_eq. simpl.
      specialize (Hstep_imu content m0 Himu Hstep_gt).
      destruct (parseAndCheckImu_file delim content m0) as [[[]|f] m1]; simpl in *;
        [|exact Hstep_imu].
      destruct (String.eqb_spec img "") as [->|Himg]; simpl; [exact Hstep_imu|].
      destruct (open_file img) as [content'|]; [|exact Hstep_imu].
      destruct (is_directory (image_data_folder_ m1)); [|exact Hstep_imu].
      rewrite parse_step_eq. simpl. now apply Hstep_img.
Qed.

Lemma parseAndCheck_files (self : dataParserFiles) :
  let self' := (parseAndCheck self).2 in
  imu_filename_ self' = imu_filename_ self /\
  groundtruth_filename_ self' = groundtruth_filename_ self /\
  image_data_filename_ self' = image_data_filename_ self /\
  delim_ self' = delim_ self /\
  read_imu_ self' = negb (String.eqb (imu_filename_ self) "") /\
  read_gt_ self' = negb (String.eqb (groundtruth_filename_ self) "") /\
  read_images_ self' = negb (String.eqb (image_data_filename_ self) "").
Proof.
  destruct self as [imu gt img ri rg rim delim m]. unfold parseAndCheck. simpl.
  destruct (negb (String.eqb gt "")); simpl.
  - destruct (open_file gt) as [content0|]; [|repeat split].
    rewrite parse_step_eq. simpl.
    destruct (parseAndCheckGt_file delim content0 m) as [[[]|f] m0]; simpl;
      [|repeat split].
    destruct (negb (String.eqb imu "")); simpl.
    + destruct (open_file imu) as [content|]; [|repeat split].
      rewrite parse_step_eq. simpl.
      destruct (parseAndCheckImu_file delim content m0) as [[[]|f] m1]; simpl;
        [|repeat split].
      destruct (negb (String.eqb img "")); simpl; [|repeat split].
      destruct (open_file img) as [content'|]; [|repeat split].
      destruct (is_directory (image_data_folder_ m1)); [|repeat split].
      rewrite parse_step_eq. simpl. repeat split.
    + destruct (negb (String.eqb img "")); simpl; [|repeat split].
      destruct (open_file img) as [content'|]; [|repeat split].
      destruct (is_directory (image_data_folder_ m0)); [|repeat split].
      rewrite parse_step_eq. simpl. repeat split.
  - destruct (negb (String.eqb imu "")); simpl.
    + destruct (open_file imu) as [content|]; [|repeat split].
      rewrite parse_step_eq. simpl.
      destruct (parseAndCheckImu_file delim content m) as [[[]|f] m1]; simpl;
        [|repeat split].
      destruct (negb (String.eqb img "")); simpl; [|repeat split].
      destruct (open_file img) as [content'|]; [|repeat split].
      destruct (is_directory (image_data_folder_ m1)); [|repeat split].
      rewrite parse_step_eq. simpl. repeat split.
    + destruct (negb (String.eqb img "")); simpl; [|repeat split].
      destruct (open_file img) as [content'|]; [|repeat split].
      destruct (is_directory (image_data_folder_ m)); [|repeat split].
      rewrite parse_step_eq. simpl. repeat split.
Qed.

End parseAndCheck_facts.

(** X19. Whatever [parseAndCheck] meets (a file that does not open, a line
    that fails, a missing title), it leaves the file names, the delimiter,
    the image folder and the time offset as they were, and the three flags
    say which file names are not empty. The data and the titles of a source
    whose file name is empty are not touched: they are skipped, not
    cleared. *)
Theorem parseAndCheck_frame `{External} `{FileSystem} (self : dataParserFiles) :
  let self' := (parseAndCheck self).2 in
  (imu_filename_ self' = imu_filename_ self /\
   groundtruth_filename_ self' = groundtruth_filename_ self /\
   image_data_filename_ self' = image_data_filename_ self /\
   delim_ self' = delim_ self /\
   read_imu_ self' = negb (String.eqb (imu_filename_ self) "") /\
   read_gt_ self' = negb (String.eqb (groundtruth_filename_ self) "") /\
   read_images_ self' = negb (String.eqb (image_data_filename_ self) "")) /\
  (image_data_folder_ (members self') = image_data_folder_ (members self) /\
   timeoffset_ (members self') = timeoffset_ (members self)) /\
  (imu_filename_ self = EmptyString ->
   imu_data_ (members self') = imu_data_ (members self) /\
   imu_header_titles_ (members self') = imu_header_titles_ (members self)) /\
  (groundtruth_filename_ self = EmptyString ->
   groundtruth_data_ (members self') = groundtruth_data_ (members self) /\
   groundtruth_header_titles_ (members self')
   = groundtruth_header_titles_ (members self)) /\
  (image_data_filename_ self = EmptyString ->
   image_data_ (members self') = image_data_ (members self) /\
   image_header_titles_ (members self') = image_header_titles_ (members self)).
Proof.
  intros self'. split; [apply parseAndCheck_files|].
  split; [|split; [|split]].
  - apply (parseAndCheck_members
             (fun s => image_data_folder_ s = image_data_folder_ (members self) /\
                       timeoffset_ s = timeoffset_ (members self))); auto.
  - intros Hname.
    apply (parseAndCheck_members
             (fun s => imu_data_ s = imu_data_ (members self) /\
                       imu_header_titles_ s = imu_header_titles_ (members self)));
      auto; contradiction.
  - intros Hname.
    apply (parseAndCheck_members
             (fun s => groundtruth_data_ s = groundtruth_data_ (members self) /\
                       groundtruth_header_titles_ s
                       = groundtruth_header_titles_ (members self)));
      auto; contradiction.
  - intros Hname.
    apply (parseAndCheck_members
             (fun s => image_data_ s = image_data_ (members self) /\
                       image_header_titles_ s = image_header_titles_ (members self)));
      auto; contradiction.
Qed.

(** The IMU file alone: its two rows are stored, sorted, and the data of the
    two other sources stays. With a groundtruth file that does not open,
    nothing is read, the IMU file neither. *)
Example parseAndCheck_example :
  let run := parseAndCheck (H := simple_External) (H0 := example_files)
               (example_parser_files "") in
  run.1 = Done tt /\
  imu_timestamp_ <$> imu_data_ (members run.2) = [7; 0x1.4ea72d8f0de18p+30]%float /\
  groundtruth_data_ (members run.2) = groundtruth_data_ example_parser /\
  image_data_ (members run.2) = image_data_ example_parser /\
  (parseAndCheck (H := simple_External) (H0 := example_files)
     (example_parser_files "gt.csv")).1 = Failed Error_opening_GT_file /\
  members (parseAndCheck (H := simple_External) (H0 := example_files)
             (example_parser_files "gt.csv")).2 = example_parser.
Proof. vm_compute. repeat split; reflexivity. Qed.

(** ** The columns of a record *)

Lemma entry_column {A : Type} (header titles : list string) (indices : list nat)
    (it : list A) (k : nat) (v : A) :
  Forall2 (fun title index => getIndex header title = Some index) titles indices ->
  column indices it k = Return v ->
  exists title, titles !! k = Some title /\ entry header it title = Some v.
Proof.
  intros Hall Hcol. apply column_Return in Hcol. destruct Hcol as (n & Hk & Hn).
  destruct (Forall2_lookup_r _ _ _ _ _ Hall Hk) as (title & Htitle & Hidx).
  exists title. split; [exact Htitle|]. unfold entry. now rewrite Hidx.
Qed.

Lemma getIndices_loop_Forall2 (header titles : list string) (indices : list nat) :
  getIndices_loop header titles [] = (true, indices) ->
  Forall2 (fun title index => getIndex header title = Some index) titles indices.
Proof.
  intros Hloop. pose proof (getIndices_loop_spec header titles []) as Hspec.
  rewrite Hloop in Hspec. destruct Hspec as [_ Hnew].
  destruct (Hnew eq_refl) as (new & -> & Hall). exact Hall.
Qed.

Lemma read_imu_Return (indices : list nat) (it : list fp) (imu : Imu) :
  read_imu indices it = Return imu ->
  exists t,
    imu_timestamp_ imu = rescale t /\
    Forall2 (fun k v => column indices it k = Return v) [0; 1; 2; 3; 4; 5; 6]
      [t; x (ang_ imu); y (ang_ imu); z (ang_ imu);
       x (acc_ imu); y (acc_ imu); z (acc_ imu)].
Proof.
  unfold read_imu. intros Hread. repeat bind_inv Hread. injection Hread as <-.
  eexists. split; [reflexivity|]. simpl. repeat constructor; assumption.
Qed.

Lemma read_camera_Return `{External} (self : dataParser) (indices : list nat)
    (it : list string) (cam : Camera) :
  read_camera self indices it = Return cam ->
  exists s t name,
    column indices it 0 = Return s /\ std_stod s = Return t /\
    column indices it 1 = Return name /\
    cam = mkCamera (PrimFloat.add (rescale t) (timeoffset_ self))
            (cv_imread (image_data_folder_ self +:+ name))
            (full_mask (rows (cv_imread (image_data_folder_ self +:+ name)))
                       (cols (cv_imread (image_data_folder_ self +:+ name)))).
Proof.
  unfold read_camera. intros Hread. repeat bind_inv Hread. injection Hread as <-.
  eexists _, _, _. repeat split; eassumption.
Qed.


Lemma entries_of_columns {A : Type} (header titles : list string) (indices : list nat)
    (it : list A) (ks : list nat) (vs : list A) :
  Forall2 (fun title index => getIndex header title = Some index) titles indices ->
  Forall2 (fun k v => column indices it k = Return v) ks vs ->
  Forall2 (fun k v => exists title, titles !! k = Some title /\
                                    entry header it title = Some v) ks vs.
Proof.
  intros Hidx Hall. eapply Forall2_impl; [exact Hall|].
  intros k v. now apply entry_column.
Qed.

Lemma entries_drop {A : Type} (header titles : list string) (it : list A)
    (n : nat) (vs : list A) :
  Forall2 (fun k v => exists title, titles !! k = Some title /\
                                    entry header it title = Some v)
          (seq n (length vs)) vs ->
  entry header it <$> take (length vs) (drop n titles) = Some <$> vs.
Proof.
  revert n. induction vs as [|v vs IH]; intros n Hall; [reflexivity|].
  simpl in Hall. inversion Hall as [|? ? ? ? (title & Htitle & Hv) Hrest]; subst.
  rewrite (drop_S _ _ _ Htitle). cbn [length take]. rewrite !fmap_cons, Hv. f_equal.
  apply IH. exact Hrest.
Qed.

Lemma entries_take {A : Type} (header titles : list string) (it : list A)
    (vs : list A) :
  Forall2 (fun k v => exists title, titles !! k = Some title /\
                                    entry header it title = Some v)
          (seq 0 (length vs)) vs ->
  entry header it <$> take (length vs) titles = Some <$> vs.
Proof. exact (entries_drop header titles it 0 vs). Qed.

(** X20. When [parseAndCheckImu] returns, the IMU data is, up to the order
    of the sort, one reading for each row, in which the entries of the row
    in the columns of the first seven titles (for each title the first
    column of the header with that title, both trimmed) are the raw
    timestamp, the angular velocity and the acceleration; so the columns of
    the file may come in any order and among others. *)
Theorem parseAndCheckImu_columns `{External}
    (header : list string) (data : list (list fp)) (self self' : dataParser) :
  (forall (A : Type) (lt : A -> A -> bool) (v : list A), std_sort A lt v ≡ₚ v) ->
  parseAndCheckImu true header data self = (Return tt, self') ->
  imu_header_titles_ self' = trimString <$> imu_header_titles_ self /\
  exists records,
    imu_data_ self' ≡ₚ records /\
    Forall2 (fun it imu =>
               exists t,
                 imu_timestamp_ imu = rescale t /\
                 entry (trimString <$> header) it
                   <$> take 7 (imu_header_titles_ self')
                 = Some <$> [t; x (ang_ imu); y (ang_ imu); z (ang_ imu);
                             x (acc_ imu); y (acc_ imu); z (acc_ imu)])
            data records.
Proof.
  intros Hsort Hrun. apply parseAndCheckImu_Return in Hrun.
  destruct Hrun as (indices & records & Hloop & Hall & ->). simpl.
  split; [reflexivity|]. exists records. split; [apply Hsort|].
  apply getIndices_loop_Forall2 in Hloop.
  eapply Forall2_impl; [exact Hall|]. intros it imu Hread.
  apply read_imu_Return in Hread. destruct Hread as (t & Ht & Hcols).
  exists t. split; [exact Ht|].
  apply (entries_take _ _ _
           [t; x (ang_ imu); y (ang_ imu); z (ang_ imu);
            x (acc_ imu); y (acc_ imu); z (acc_ imu)]).
  now apply (entries_of_columns _ _ indices).
Qed.

Lemma parseAndCheckImu_columns_witness :
  let self' := (parseAndCheckImu (H := simple_External) true example_imu_header
                  example_imu_rows example_parser).2 in
  imu_header_titles_ self' = imu_header_titles_ example_parser /\
  exists records,
    imu_data_ self' ≡ₚ records /\
    Forall2 (fun it imu =>
               exists t,
                 imu_timestamp_ imu = rescale t /\
                 entry example_imu_header it <$> take 7 (imu_header_titles_ self')
                 = Some <$> [t; x (ang_ imu); y (ang_ imu); z (ang_ imu);
                             x (acc_ imu); y (acc_ imu); z (acc_ imu)])
            example_imu_rows records.
Proof.
  apply (parseAndCheckImu_columns (H := simple_External) example_imu_header
           example_imu_rows example_parser _ insertion_sort_Permutation).
  vm_compute. reflexivity.
Defined.

(** X21. When [parseAndCheckImages] returns, the image data is, up to the
    order of the sort, one reading for each row: its timestamp is what
    [std::stod] makes of the entry under the first title, rescaled, plus the
    time offset; its image is read from the folder name followed by the
    entry under the second title; its mask has the size of the image. *)
Theorem parseAndCheckImages_columns `{External}
    (header : list string) (data : list (list string)) (self self' : dataParser) :
  (forall (A : Type) (lt : A -> A -> bool) (v : list A), std_sort A lt v ≡ₚ v) ->
  parseAndCheckImages true header data self = (Return tt, self') ->
  image_header_titles_ self' = trimString <$> image_header_titles_ self /\
  exists records,
    image_data_ self' ≡ₚ records /\
    Forall2 (fun it cam =>
               exists s t name,
                 entry (trimString <$> header) it
                   <$> take 2 (image_header_titles_ self')
                 = [Some s; Some name] /\
                 std_stod s = Return t /\
                 cam_timestamp_ cam = PrimFloat.add (rescale t) (timeoffset_ self) /\
                 image_ cam = cv_imread (image_data_folder_ self +:+ name) /\
                 mask_ cam = full_mask (rows (image_ cam)) (cols (image_ cam)))
            data records.
Proof.
  intros Hsort Hrun. apply parseAndCheckImages_Return in Hrun.
  destruct Hrun as (indices & records & Hloop & Hall & ->). simpl.
  split; [reflexivity|]. exists records. split; [apply Hsort|].
  apply getIndices_loop_Forall2 in Hloop.
  eapply Forall2_impl; [exact Hall|]. intros it cam Hread.
  apply read_camera_Return in Hread.
  destruct Hread as (s & t & name & Hs & Ht & Hname & ->).
  exists s, t, name. split; [|auto].
  apply (entries_take _ _ _ [s; name]).
  apply (entries_of_columns _ _ indices); [exact Hloop|].
  repeat constructor; assumption.
Qed.

Lemma parseAndCheckImages_columns_witness :
  let self' := (parseAndCheckImages (H := simple_External) true example_image_header
                  example_image_rows example_parser).2 in
  image_header_titles_ self' = image_header_titles_ example_parser /\
  exists records,
    image_data_ self' ≡ₚ records /\
    Forall2 (fun it cam =>
               exists s t name,
                 entry example_image_header it <$> take 2 (image_header_titles_ self')
                 = [Some s; Some name] /\
                 stod_unsigned s = Return t /\
                 cam_timestamp_ cam = PrimFloat.add (rescale t) 0.5%float /\
                 image_ cam = mkMat 0 0 [] /\
                 mask_ cam = full_mask (rows (image_ cam)) (cols (image_ cam)))
            example_image_rows records.
Proof.
  apply (parseAndCheckImages_columns (H := simple_External) example_image_header
           example_image_rows example_parser _ insertion_sort_Permutation).
  vm_compute. reflexivity.
Defined.



(** The two rows of the example, as stored: sorted, the position from the
    first three columns, no velocity. *)
Example parseAndCheckGt_columns_example :
  groundtruth_data_
    (parseAndCheckGt (H := simple_External) true example_groundtruth8_header
       example_groundtruth8_rows example_groundtruth8_parser).2
  = [mkGroundtruth 2.5 Quaternion_Identity (mkVector3 4 5 6)
       Vector3_Zero Vector3_Zero Vector3_Zero;
     mkGroundtruth 7.5 Quaternion_Identity (mkVector3 1 2 3)
       Vector3_Zero Vector3_Zero Vector3_Zero]%float.
Proof. vm_compute. reflexivity. Qed.

(** X23. The image parser lowers the case of every field of the file, the
    names of the images among them: when [parseAndCheckImages] has read a
    file to the end, every image it stored was read from the folder name
    followed by the lower-case form of a field of a data line (without its
    closing carriage return), whatever the case of the name in the file. *)
Theorem parseAndCheckImages_lowercase_names `{External}
    (delim : ascii) (content : string) (self self' : dataParser) :
  (forall (A : Type) (lt : A -> A -> bool) (v : list A), std_sort A lt v ≡ₚ v) ->
  parseAndCheckImages_file delim content self = (Done tt, self') ->
  Forall (fun cam =>
            exists line field,
              line ∈ tl (lines_of content) /\
              field ∈ read_fields delim EmptyString line /\
              image_ cam
              = cv_imread (image_data_folder_ self +:+ lowercase (strip_cr field)))
         (image_data_ self').
Proof.
  intros Hsort Hrun. apply after_reading_Done in Hrun.
  destruct Hrun as (header & data & Htable & Hsecond).
  apply read_table_Done in Htable. destruct Htable as [_ Hrows].
  apply parseAndCheckImages_Return in Hsecond.
  destruct Hsecond as (indices & records & _ & Hall & ->). simpl.
  rewrite Hsort. apply Forall_forall. intros cam Hcam.
  apply list_elem_of_lookup in Hcam. destruct Hcam as [i Hi].
  destruct (Forall2_lookup_r _ _ _ _ _ Hall Hi) as (it & Hit & Hread).
  destruct (Forall2_lookup_r _ _ _ _ _ Hrows Hit) as (line & Hline & Hparse).
  apply read_camera_Return in Hread.
  destruct Hread as (s & t & name & _ & _ & Hname & ->). simpl.
  apply column_Return in Hname. destruct Hname as (n & _ & Hn).
  unfold parseLine_string in Hparse.
  apply parse_fields_string_Done in Hparse. destruct Hparse as [_ ->].
  apply list_lookup_fmap_Some in Hn. destruct Hn as (field & -> & Hfield).
  apply list_elem_of_lookup_2 in Hfield. apply list_elem_of_filter in Hfield.
  exists line, field. split; [eapply list_elem_of_lookup_2; exact Hline|].
  split; [apply Hfield | reflexivity].
Qed.

Lemma parseAndCheckImages_lowercase_names_witness :
  Forall (fun cam =>
            exists line field,
              line ∈ tl (lines_of example_image_file) /\
              field ∈ read_fields "," EmptyString line /\
              image_ cam
              = cv_imread (External := simple_External)
                  (image_data_folder_ example_parser +:+ lowercase (strip_cr field)))
         (image_data_ (parseAndCheckImages_file (H := simple_External) ","
                         example_image_file example_parser).2).
Proof.
  apply (parseAndCheckImages_lowercase_names (H := simple_External) ","
           example_image_file example_parser _ insertion_sort_Permutation).
  vm_compute. reflexivity.
Defined.

(** The names [cam0/A.png] and [cam0/b.png] of the example file, as they are
    handed on to the second half of the parser. *)
Example parseAndCheckImages_lowercase_example :
  read_table "," (parseLine_string ",") example_image_file
  = Done (["name"; "t"], [["cam0/a.png"; "3"]; ["cam0/b.png"; "5"]]).
Proof. vm_compute. reflexivity. Qed.

(** ** Upper and lower case *)

Lemma tolower_eqb (delim c : ascii) :
  is_letter delim = false ->
  Ascii.eqb (tolower c) delim = Ascii.eqb c delim.
Proof.
  intros Hdelim. unfold tolower. destruct (is_upper c) eqn:Hupper; [|reflexivity].
  assert (Hlower : is_lower (ascii_of_nat (nat_of_ascii c + 32)) = true).
  { revert Hupper. destruct c as [[] [] [] [] [] [] [] []]; vm_compute; congruence. }
  unfold is_letter in Hdelim. apply orb_false_elim in Hdelim.
  destruct Hdelim as [Hu Hl].
  destruct (Ascii.eqb_spec (ascii_of_nat (nat_of_ascii c + 32)) delim) as [Heq|_];
    [congruence|].
  destruct (Ascii.eqb_spec c delim) as [Heq|_]; congruence.
Qed.

Lemma lowercase_append (s1 s2 : string) :
  lowercase (s1 +:+ s2) = lowercase s1 +:+ lowercase s2.
Proof. induction s1 as [|c s1 IH]; simpl; [reflexivity | now rewrite IH]. Qed.

Lemma read_fields_lowercase (delim : ascii) (token line : string) :
  is_letter delim = false ->
  read_fields delim (lowercase token) (lowercase line)
  = lowercase <$> read_fields delim token line.
Proof.
  intros Hdelim. revert token. induction line as [|c line IH]; intros token.
  - destruct token; reflexivity.
  - cbn [lowercase read_fields]. rewrite (tolower_eqb delim c Hdelim).
    destruct (Ascii.eqb c delim).
    + rewrite fmap_cons. f_equal. apply (IH EmptyString).
    + rewrite <- IH, lowercase_append. reflexivity.
Qed.

Lemma back_lowercase (s : string) : back (lowercase s) = tolower <$> back s.
Proof.
  induction s as [|c s IH]; [reflexivity|].
  destruct s as [|d s]; [reflexivity|]. exact IH.
Qed.

Lemma pop_back_lowercase (s : string) : pop_back (lowercase s) = lowercase (pop_back s).
Proof.
  induction s as [|c s IH]; [reflexivity|].
  destruct s as [|d s]; [reflexivity|].
  change (pop_back (lowercase (String c (String d s))))
    with (String (tolower c) (pop_back (lowercase (String d s)))).
  rewrite IH. reflexivity.
Qed.

Lemma prepare_lowercase (r : regex) (s : string) :
  prepare r (lowercase s) = prepare r s.
Proof.
  unfold prepare. rewrite back_lowercase.
  destruct (back s) as [c|]; simpl.
  - rewrite (tolower_eqb carriage_return c eq_refl).
    destruct (Ascii.eqb c carriage_return).
    + now rewrite pop_back_lowercase, lowercase_idempotent.
    + now rewrite lowercase_idempotent.
  - now rewrite lowercase_idempotent.
Qed.

Lemma lowercase_hash (s : string) : String.eqb (lowercase s) "#" = String.eqb s "#".
Proof.
  destruct s as [|c [|d s]]; try reflexivity.
  - simpl. rewrite (tolower_eqb "#" c eq_refl). reflexivity.
  - simpl. destruct (Ascii.eqb (tolower c) "#"), (Ascii.eqb c "#"); reflexivity.
Qed.

Lemma parse_fields_lowercase {T : Type} (convert : string -> result T) (r : regex)
    (fields : list string) :
  parse_fields convert r (lowercase <$> fields) = parse_fields convert r fields.
Proof.
  induction fields as [|s fields IH]; [reflexivity|].
  rewrite fmap_cons. cbn [parse_fields].
  now rewrite lowercase_hash, prepare_lowercase, IH.
Qed.

(** X24. The case of the letters plays no part in what is read: the
    constructor lowers the titles it is given, and [parseLine] reads a line
    as it reads the line in lower case, text and numbers alike, when the
    delimiter is not a letter. *)
Theorem parser_ignores_case `{External} (delim : ascii) (line : string)
    (imu_data_filename groundtruth_data_filename image_data_filename
       image_data_folder : string)
    (imu_header_titles groundtruth_header_titles image_header_titles : list string)
    (timeoffset : fp) :
  is_letter delim = false ->
  parseLine_string delim (lowercase line) = parseLine_string delim line /\
  parseLine_fp delim (lowercase line) = parseLine_fp delim line /\
  construct imu_data_filename groundtruth_data_filename image_data_filename
    image_data_folder (lowercase <$> imu_header_titles)
    (lowercase <$> groundtruth_header_titles) (lowercase <$> image_header_titles)
    delim timeoffset
  = construct imu_data_filename groundtruth_data_filename image_data_filename
      image_data_folder imu_header_titles groundtruth_header_titles
      image_header_titles delim timeoffset.
Proof.
  intros Hdelim. unfold parseLine_string, parseLine_fp.
  pose proof (read_fields_lowercase delim EmptyString line Hdelim) as Hfields.
  change (lowercase EmptyString) with EmptyString in Hfields.
  split; [|split].
  - rewrite Hfields. apply parse_fields_lowercase.
  - rewrite Hfields. apply parse_fields_lowercase.
  - unfold construct. rewrite <- !list_fmap_compose.
    f_equal. f_equal; apply list_fmap_ext; intros i s _; apply lowercase_idempotent.
Qed.

Lemma parser_ignores_case_witness :
  parseLine_string "," (lowercase "T,W_x,12E3") = parseLine_string "," "T,W_x,12E3" /\
  parseLine_fp (H := simple_External) "," (lowercase "T,W_x,12E3")
  = parseLine_fp (H := simple_External) "," "T,W_x,12E3" /\
  construct "imu.csv" "gt.csv" "" "cam0/" (lowercase <$> ["T"; "W_x"])
    (lowercase <$> []) (lowercase <$> []) "," 0%float
  = construct "imu.csv" "gt.csv" "" "cam0/" ["T"; "W_x"] [] [] "," 0%float.
Proof.
  apply (parser_ignores_case (H := simple_External) "," "T,W_x,12E3"
           "imu.csv" "gt.csv" "" "cam0/" ["T"; "W_x"] [] [] 0%float).
  reflexivity.
Defined.

End ReadingFacts.
